(** * Candle chart plotter of cipepser/plot: a shallow embedding

    The Go package [plotter] (file [plotter/candlechart.go]) aggregates
    per-period price samples into candles, reports the data range of a
    candle chart, draws the chart on a canvas and rewrites the labels of
    the default tick marks.  The definitions below follow that file
    function by function; the theorems after them settle the behaviour
    of each function. *)

From Stdlib Require Import ZArith String Ascii Bool Lia List.
From Stdlib Require Import Floats.SpecFloat.
From Stdlib Require Import DecimalString DecimalN DecimalPos.
From Stdlib Require Import Sorting.Permutation.
Import ListNotations.
Open Scope Z_scope.

(** ** Go's [float64]

    A [float64] is an IEEE 754 binary64 number: 53 bits of precision,
    infinities at exponent 1024.  The specification floats of the
    Standard Library carry exactly that data, with one NaN (Go's NaN
    payloads are never inspected by the plotter). *)
Module F64.

Definition float64 := spec_float.

Definition prec : Z := 53.
Definition emax : Z := 1024.

Definition add : float64 -> float64 -> float64 := SFadd prec emax.
Definition sub : float64 -> float64 -> float64 := SFsub prec emax.
Definition mul : float64 -> float64 -> float64 := SFmul prec emax.
Definition div : float64 -> float64 -> float64 := SFdiv prec emax.

(** Go's [x < y], [x > y] and [x == y] on floats. *)
Definition lt (x y : float64) : bool := SFltb x y.
Definition gt (x y : float64) : bool := SFltb y x.
Definition le (x y : float64) : bool := SFleb x y.
Definition eq (x y : float64) : bool := SFeqb x y.

(** The conversion [float64(i)] of an integer, rounded to nearest even. *)
Definition of_int (i : Z) : float64 := binary_normalize prec emax i 0 false.

(** The value of the decimal constant [m * 10^e], correctly rounded:
    what the Go compiler does with a literal such as [1.3], and what
    [strconv.ParseFloat] does with the digits it has read. *)
Definition of_decimal (neg : bool) (m : N) (e : Z) : float64 :=
  match m with
  | N0 => S754_zero neg
  | Npos p =>
      match e with
      | Zneg k => SFdiv prec emax (S754_finite neg p 0)
                                  (S754_finite false (Pos.pow 10 k) 0)
      | Z0 => binary_round prec emax neg p 0
      | Zpos k => binary_round prec emax neg (p * Pos.pow 10 k) 0
      end
  end.

Definition zero : float64 := S754_zero false.
Definition NaN : float64 := S754_nan.
Definition Inf (sign : Z) : float64 := S754_infinity (sign <? 0).

Definition IsNaN (f : float64) : bool :=
  match f with S754_nan => true | _ => false end.

(** [math.IsInf]: [sign > 0] asks for +Inf, [sign < 0] for -Inf and
    [sign == 0] for either. *)
Definition IsInf (f : float64) (sign : Z) : bool :=
  match f with
  | S754_infinity s =>
      if sign =? 0 then true else if 0 <? sign then negb s else s
  | _ => false
  end.

Definition Signbit (f : float64) : bool :=
  match f with
  | S754_zero s | S754_infinity s | S754_finite s _ _ => s
  | S754_nan => false
  end.

(** [math.Min] and [math.Max] of the Go standard library
    ([math/dim.go]), special cases included. *)
Definition Min (x y : float64) : float64 :=
  if IsInf x (-1) || IsInf y (-1) then Inf (-1)
  else if IsNaN x || IsNaN y then NaN
  else if eq x zero && eq x y then (if Signbit x then x else y)
  else if lt x y then x else y.

Definition Max (x y : float64) : float64 :=
  if IsInf x 1 || IsInf y 1 then Inf 1
  else if IsNaN x || IsNaN y then NaN
  else if eq x zero && eq x y then (if Signbit x then y else x)
  else if gt x y then x else y.

End F64.
Import F64.

(** ** Results of Go calls

    A Go function of this package returns a value, returns a non-nil
    [error], or panics at run time (a slice indexed out of range). *)
Inductive error : Type :=
| errors_New (msg : string).

Inductive panic : Type :=
| IndexOutOfRange (index len : Z).

Inductive result (A : Type) : Type :=
| Ok (a : A)
| Err (e : error)
| Panic (p : panic).
Arguments Ok {A} a.
Arguments Err {A} e.
Arguments Panic {A} p.

Definition bind {A B : Type} (r : result A) (k : A -> result B) : result B :=
  match r with
  | Ok a => k a
  | Err e => Err e
  | Panic p => Panic p
  end.

Notation "x <- r ;; k" := (bind r (fun x => k))
  (at level 61, r at next level, right associativity).

(** The one error the package creates; the specification calls it
    [EmptyInput]. *)
Definition EmptyInput : error :=
  errors_New "length of data is 0, must have positive length.".

(** ** Slices *)

(** [s[i]] as an expression: a panic when [i] is out of range. *)
Definition index {A : Type} (s : list A) (i : nat) : result A :=
  match nth_error s i with
  | Some a => Ok a
  | None => Panic (IndexOutOfRange (Z.of_nat i) (Z.of_nat (length s)))
  end.

(** [s[i] = a] as a statement, for [i] in range. *)
Fixpoint store {A : Type} (s : list A) (i : nat) (a : A) : list A :=
  match s, i with
  | [], _ => []
  | _ :: s', O => a :: s'
  | b :: s', S i' => b :: store s' i' a
  end.

(** ** Colors, lengths and points of the drawing library *)
Module color.
Inductive Color : Type :=
| nil                (* the nil interface value *)
| Gray16 (Y : Z).
Definition Black : Color := Gray16 0.
Definition White : Color := Gray16 65535.
End color.

Module vg.
Definition Length := float64.
Definition Points (pt : float64) : Length := pt.
Record Point : Type := { X : Length; Y : Length }.
End vg.

(** ** Bar units *)
Definition FormatSecond : string := "2006-01-02T15:04:05".
Definition FormatMinute : string := "2006-01-02T15:04".
Definition FormatHour   : string := "2006-01-02T15".
Definition FormatDay    : string := "2006-01-02".
Definition FormatMonth  : string := "2006-01".
Definition FormatYear   : string := "2006".

Definition transFormat2Unit (f : string) : string :=
  if String.eqb f FormatSecond then "sec"
  else if String.eqb f FormatMinute then "min"
  else if String.eqb f FormatHour then "hrs"
  else if String.eqb f FormatDay then "day"
  else if String.eqb f FormatMonth then "mon"
  else if String.eqb f FormatYear then "yr"
  else "".

Record BarUnit : Type := { T : Z; Unit : string }.

(** ** Candles

    The field [end] of the Go struct is [end_] here, [end] being a
    keyword. *)
Record Candle : Type := {
  X : float64;
  start : float64;
  end_ : float64;
  low : float64;
  high : float64;
  Color : color.Color
}.

(** The zero value of [Candle], as [new(Candle)] and [make([]Candle, n)]
    produce it. *)
Definition zeroCandle : Candle :=
  {| X := zero; start := zero; end_ := zero; low := zero; high := zero;
     Color := color.nil |}.

Definition set_low (c : Candle) (v : float64) : Candle :=
  {| X := X c; start := start c; end_ := end_ c; low := v; high := high c;
     Color := Color c |}.

Definition set_high (c : Candle) (v : float64) : Candle :=
  {| X := X c; start := start c; end_ := end_ c; low := low c; high := v;
     Color := Color c |}.

(** The body of the loop [for _, d := range data] of [NewCandle]. *)
Definition NewCandle_step (c : Candle) (d : float64) : Candle :=
  let c := set_low c (Min (low c) d) in
  set_high c (Max (high c) d).

Definition NewCandle (x : float64) (data : list float64) : result Candle :=
  if (length data =? 0)%nat then Err EmptyInput
  else
    d0 <- index data 0 ;;
    dn <- index data (length data - 1) ;;
    let c := {| X := x; start := d0; end_ := dn; low := d0; high := d0;
                Color := if gt d0 dn then color.Black else color.White |} in
    Ok (fold_left NewCandle_step data c).

(** The loop of [NewCandles]: [i] is the index of the next period,
    [cs] the slice allocated by [make] and filled so far. *)
Fixpoint NewCandles_loop (i : nat) (data : list (list float64))
    (cs : list Candle) : result (list Candle) :=
  match data with
  | [] => Ok cs
  | d :: data' =>
      c <- NewCandle (of_int (Z.of_nat i)) d ;;
      NewCandles_loop (S i) data' (store cs i c)
  end.

Definition NewCandles (data : list (list float64)) : result (list Candle) :=
  NewCandles_loop 0 data (repeat zeroCandle (length data)).

Definition getMax (cs : list Candle) : result float64 :=
  c0 <- index cs 0 ;;
  Ok (fold_left (fun max c => if lt max (high c) then high c else max)
                cs (high c0)).

Definition getMin (cs : list Candle) : result float64 :=
  c0 <- index cs 0 ;;
  Ok (fold_left (fun min c => if gt min (low c) then low c else min)
                cs (low c0)).

(** ** The drawing surface

    The plotter talks to gonum's [draw.Canvas] through four methods:
    [ClipPolygonY] and [ClipLinesY] clip against the canvas's visible
    rectangle and draw nothing; [FillPolygon] and [StrokeLines] draw.
    A canvas is modelled by its two clipping functions and the
    sequence of draw calls it has received. *)
Module draw.

Inductive GlyphDrawer : Type :=
| NoGlyph | RingGlyph | CircleGlyph | SquareGlyph | BoxGlyph
| TriangleGlyph | PyramidGlyph | PlusGlyph | CrossGlyph.

Record GlyphStyle : Type := {
  GlyphColor : color.Color;
  Radius : vg.Length;
  Shape : GlyphDrawer
}.

Record LineStyle : Type := {
  LineColor : color.Color;
  Width : vg.Length;
  Dashes : list vg.Length;
  DashOffs : vg.Length
}.

Inductive Call : Type :=
| CallFillPolygon (clr : color.Color) (pts : list vg.Point)
| CallStrokeLines (sty : LineStyle) (lines : list (list vg.Point)).

Record Canvas : Type := {
  ClipPolygonY : list vg.Point -> list vg.Point;
  ClipLinesY : list (list vg.Point) -> list (list vg.Point);
  calls : list Call
}.

Definition record (c : Canvas) (k : Call) : Canvas :=
  {| ClipPolygonY := ClipPolygonY c; ClipLinesY := ClipLinesY c;
     calls := calls c ++ [k] |}.

Definition FillPolygon (c : Canvas) (clr : color.Color)
    (pts : list vg.Point) : Canvas :=
  record c (CallFillPolygon clr pts).

Definition StrokeLines (c : Canvas) (sty : LineStyle)
    (lines : list (list vg.Point)) : Canvas :=
  record c (CallStrokeLines sty lines).

End draw.

(** gonum's [plot.Plot], as far as the plotter uses it: the pair of
    data-to-canvas transforms for a canvas. *)
Module plot.
Record Plot : Type := {
  Transforms : draw.Canvas ->
               (float64 -> vg.Length) * (float64 -> vg.Length)
}.
Record Tick : Type := { Value : float64; Label : string }.
End plot.

(** ** Candle charts

    The embedded [Candles] struct is flattened into its one field
    [candles]; the fields [Min] and [Max] are [Min_] and [Max_] here, to
    keep them apart from [math.Min] and [math.Max]. *)
Record CandleChart : Type := {
  candles : list Candle;
  GlyphStyle : draw.GlyphStyle;
  CandleStyle : draw.LineStyle;
  WhiskerStyle : draw.LineStyle;
  Min_ : float64;
  Max_ : float64
}.

Section Chart.

(** [DefaultGlyphStyle] is a package-level variable declared in another
    file of the package; its value plays no part below. *)
Variable DefaultGlyphStyle : draw.GlyphStyle.

Definition NewCandleChart (data : list (list float64))
    : result CandleChart :=
  cs <- NewCandles data ;;
  mn <- getMin cs ;;
  mx <- getMax cs ;;
  Ok {| candles := cs;
        GlyphStyle := DefaultGlyphStyle;
        CandleStyle := {| draw.LineColor := color.Black;
                          draw.Width := vg.Points (of_int 1);
                          draw.Dashes := [];
                          draw.DashOffs := zero |};
        WhiskerStyle := {| draw.LineColor := color.nil;
                           draw.Width := vg.Points (of_int 1);
                           draw.Dashes := [];
                           draw.DashOffs := zero |};
        Min_ := mn;
        Max_ := mx |}.

End Chart.

Definition two : float64 := of_int 2.

(** The five points [pts] of a candle's body, from the canvas position
    [x] of the candle, the candle width [w] and the canvas heights [q1]
    and [q3] of the body's two ends. *)
Definition body_pts (cc : CandleChart) (x w q1 q3 : vg.Length)
    : list vg.Point :=
  [ {| vg.X := sub x (div w two); vg.Y := q1 |};
    {| vg.X := sub x (div w two); vg.Y := q3 |};
    {| vg.X := add x (div w two); vg.Y := q3 |};
    {| vg.X := add x (div w two); vg.Y := q1 |};
    {| vg.X := sub (sub x (div w two))
                   (div (draw.Width (CandleStyle cc)) two);
       vg.Y := q1 |} ].

(** The four segments of a candle's whiskers. *)
Definition whisker_lines (x l h q1 q3 : vg.Length) : list (list vg.Point) :=
  [ [ {| vg.X := x; vg.Y := q3 |}; {| vg.X := x; vg.Y := h |} ];
    [ {| vg.X := x; vg.Y := h |};  {| vg.X := x; vg.Y := h |} ];
    [ {| vg.X := x; vg.Y := q1 |}; {| vg.X := x; vg.Y := l |} ];
    [ {| vg.X := x; vg.Y := l |};  {| vg.X := x; vg.Y := l |} ] ].

(** The body of the loop [for _, candle := range cc.candles] of [Plot]. *)
Definition Plot_step (cc : CandleChart) (trX trY : float64 -> vg.Length)
    (w : vg.Length) (c : draw.Canvas) (candle : Candle) : draw.Canvas :=
  let x := trX (X candle) in
  let l := trY (low candle) in
  let h := trY (high candle) in
  let '(q1, q3) :=
    if lt (start candle) (end_ candle)
    then (trY (start candle), trY (end_ candle))
    else (trY (end_ candle), trY (start candle)) in
  let pts := body_pts cc x w q1 q3 in
  let poly := draw.ClipPolygonY c pts in
  let c := draw.FillPolygon c (Color candle) poly in
  let box := draw.ClipLinesY c [pts] in
  let c := draw.StrokeLines c (CandleStyle cc) box in
  let whisks := draw.ClipLinesY c (whisker_lines x l h q1 q3) in
  draw.StrokeLines c (WhiskerStyle cc) whisks.

(** [Plot] returns the canvas after the draw calls.  The two index
    expressions [cc.candles[1]] and [cc.candles[0]] are in range past the
    length test, so the default of [nth] is never read. *)
Definition Plot (cc : CandleChart) (c : draw.Canvas) (plt : plot.Plot)
    : draw.Canvas :=
  if (length (candles cc) <? 2)%nat then c
  else
    let '(trX, trY) := plot.Transforms plt c in
    let w := sub (trX (X (nth 1 (candles cc) zeroCandle)))
                 (trX (X (nth 0 (candles cc) zeroCandle))) in
    fold_left (Plot_step cc trX trY w) (candles cc) c.

(** The constant [1.3] of [DataRange], rounded to [float64]. *)
Definition const_1_3 : float64 := of_decimal false 13 (-1).

Definition DataRange (cc : CandleChart)
    : float64 * float64 * float64 * float64 :=
  (of_int 0, mul (of_int (Z.of_nat (length (candles cc)))) const_1_3,
   Min_ cc, Max_ cc).

(** ** [strconv]: floats to and from text

    [ParseFloat s] is Go's [strconv.ParseFloat(s, 64)] with the decimal
    grammar of [readFloat] (sign, digits with at most one point, optional
    exponent) and the special names; the digits read are converted
    exactly and rounded once, which is the function's contract ("the
    nearest floating-point number rounded using IEEE754 unbiased
    rounding").  Hexadecimal mantissas and underscores between digits,
    which Go accepts from release 1.13 on, are not part of this grammar.
    [FormatFloat_f f prec] is
    [strconv.FormatFloat(f, 'f', prec, 64)] for [prec >= 0]: the exact
    value rounded half-to-even at [prec] decimals. *)
Module strconv.

Inductive Reason : Type := ErrSyntax | ErrRange.

Record NumError : Type := { Func : string; Num : string; Err_ : Reason }.

Definition syntaxError (fn str : string) : NumError :=
  {| Func := fn; Num := str; Err_ := ErrSyntax |}.
Definition rangeError (fn str : string) : NumError :=
  {| Func := fn; Num := str; Err_ := ErrRange |}.

Definition byte (c : ascii) : N := N_of_ascii c.

Definition isDigit (c : ascii) : bool :=
  (byte "0" <=? byte c)%N && (byte c <=? byte "9")%N.

Definition digitVal (c : ascii) : N := (byte c - byte "0")%N.

Definition lower (c : ascii) : ascii :=
  if (byte "A" <=? byte c)%N && (byte c <=? byte "Z")%N
  then ascii_of_N (byte c + 32) else c.

Fixpoint equalIgnoreCase (s1 s2 : string) : bool :=
  match s1, s2 with
  | EmptyString, EmptyString => true
  | String c1 s1', String c2 s2' =>
      Ascii.eqb (lower c1) (lower c2) && equalIgnoreCase s1' s2'
  | _, _ => false
  end.

Definition special (s : string) : option float64 :=
  match s with
  | EmptyString => None
  | String c _ =>
      if Ascii.eqb c "+" then
        if equalIgnoreCase s "+inf" || equalIgnoreCase s "+infinity"
        then Some (Inf 1) else None
      else if Ascii.eqb c "-" then
        if equalIgnoreCase s "-inf" || equalIgnoreCase s "-infinity"
        then Some (Inf (-1)) else None
      else if Ascii.eqb c "n" || Ascii.eqb c "N" then
        if equalIgnoreCase s "nan" then Some NaN else None
      else if Ascii.eqb c "i" || Ascii.eqb c "I" then
        if equalIgnoreCase s "inf" || equalIgnoreCase s "infinity"
        then Some (Inf 1) else None
      else None
  end.

(** The variables of [readFloat]'s digit loop. *)
Record scan : Type := {
  sawdot : bool;
  sawdigits : bool;
  nd : Z;
  dp : Z;
  mantissa : N
}.

Definition scan0 : scan :=
  {| sawdot := false; sawdigits := false; nd := 0; dp := 0;
     mantissa := 0 |}.

(** The digit loop: [None] on a second point, otherwise the variables
    and the unread rest of the string. *)
Fixpoint readDigits (s : string) (st : scan) : option (scan * string) :=
  match s with
  | EmptyString => Some (st, s)
  | String c s' =>
      if Ascii.eqb c "." then
        if sawdot st then None
        else readDigits s'
               {| sawdot := true; sawdigits := sawdigits st; nd := nd st;
                  dp := nd st; mantissa := mantissa st |}
      else if isDigit c then
        if Ascii.eqb c "0" && (nd st =? 0) then
          readDigits s'
            {| sawdot := sawdot st; sawdigits := true; nd := nd st;
               dp := dp st - 1; mantissa := mantissa st |}
        else
          readDigits s'
            {| sawdot := sawdot st; sawdigits := true; nd := nd st + 1;
               dp := dp st;
               mantissa := (mantissa st * 10 + digitVal c)%N |}
      else Some (st, s)
  end.

(** The exponent's digits; the value stops growing past 10000. *)
Fixpoint readExp (s : string) (e : Z) : Z * string :=
  match s with
  | EmptyString => (e, s)
  | String c s' =>
      if isDigit c
      then readExp s' (if e <? 10000 then e * 10 + Z.of_N (digitVal c) else e)
      else (e, s)
  end.

Definition startsWithDigit (s : string) : bool :=
  match s with
  | String c _ => isDigit c
  | EmptyString => false
  end.

(** [readFloat]: the mantissa, the decimal exponent and the sign, or
    [None] when the string is not a number. *)
Definition readFloat (s : string) : option (N * Z * bool) :=
  match s with
  | EmptyString => None
  | String c s' =>
      let '(neg, s1) :=
        if Ascii.eqb c "+" then (false, s')
        else if Ascii.eqb c "-" then (true, s')
        else (false, s) in
      match readDigits s1 scan0 with
      | None => None
      | Some (st, rest) =>
          if negb (sawdigits st) then None
          else
            let dp0 := if sawdot st then dp st else nd st in
            match rest with
            | EmptyString => Some (mantissa st, dp0 - nd st, neg)
            | String c1 r1 =>
                if Ascii.eqb c1 "e" || Ascii.eqb c1 "E" then
                  match r1 with
                  | EmptyString => None
                  | String c2 r2 =>
                      let '(esign, r3) :=
                        if Ascii.eqb c2 "+" then (1, r2)
                        else if Ascii.eqb c2 "-" then (-1, r2)
                        else (1, r1) in
                      if startsWithDigit r3 then
                        let '(e, r4) := readExp r3 0 in
                        match r4 with
                        | EmptyString =>
                            Some (mantissa st, dp0 + e * esign - nd st, neg)
                        | _ => None
                        end
                      else None
                  end
                else None
            end
      end
  end.

Definition fnParseFloat : string := "ParseFloat".

Definition ParseFloat (s : string) : float64 * option NumError :=
  match special s with
  | Some f => (f, None)
  | None =>
      match readFloat s with
      | None => (zero, Some (syntaxError fnParseFloat s))
      | Some (m, e, neg) =>
          let f := of_decimal neg m e in
          if IsInf f 0 then (f, Some (rangeError fnParseFloat s))
          else (f, None)
      end
  end.

(** [n / d] rounded to the nearest integer, ties to even. *)
Definition round_half_even (n d : N) : N :=
  let q := (n / d)%N in
  let r := (n mod d)%N in
  match (2 * r ?= d)%N with
  | Lt => q
  | Gt => (q + 1)%N
  | Eq => if N.even q then q else (q + 1)%N
  end.

(** The absolute value [m * 2^e] times [10^prec], rounded. *)
Definition scaled (m : positive) (e : Z) (prec : nat) : N :=
  let n := (Npos m * 10 ^ N.of_nat prec)%N in
  match e with
  | Zneg k => round_half_even n (2 ^ Npos k)
  | _ => (n * 2 ^ Z.to_N e)%N
  end.

Definition decimal (n : N) : string :=
  NilEmpty.string_of_uint (N.to_uint n).

Fixpoint zeros (k : nat) : string :=
  match k with
  | O => EmptyString
  | S k' => String "0" (zeros k')
  end.

(** The digits of [n / 10^prec] with [prec] decimals. *)
Definition fixed (n : N) (prec : nat) : string :=
  match prec with
  | O => decimal n
  | S _ =>
      let frac := decimal (n mod 10 ^ N.of_nat prec) in
      decimal (n / 10 ^ N.of_nat prec) ++ "." ++
      zeros (prec - String.length frac) ++ frac
  end.

Definition sign (neg : bool) : string := if neg then "-" else "".

Definition FormatFloat_f (f : float64) (prec : nat) : string :=
  match f with
  | S754_nan => "NaN"
  | S754_infinity false => "+Inf"
  | S754_infinity true => "-Inf"
  | S754_zero s => sign s ++ fixed 0 prec
  | S754_finite s m e => sign s ++ fixed (scaled m e prec) prec
  end.

End strconv.

(** ** Tick labels *)
Definition set_Label (t : plot.Tick) (l : string) : plot.Tick :=
  {| plot.Value := plot.Value t; plot.Label := l |}.

Definition zeroTick : plot.Tick :=
  {| plot.Value := zero; plot.Label := "" |}.

(** What the loop of [Ticks] does to one label. *)
Definition relabel (l : string) : string :=
  let '(s, _) := strconv.ParseFloat l in
  strconv.FormatFloat_f s 0.

Inductive rawTicks : Type := rawTicks_ : rawTicks.

Section Ticks.

(** gonum's [plot.DefaultTicks{}.Ticks], an opaque collaborator. *)
Variable DefaultTicks : float64 -> float64 -> list plot.Tick.

(** The loop [for i, t := range tks] with [n] iterations left: [t] is
    a copy of [tks[i]], in range because the slice keeps its length. *)
Fixpoint Ticks_loop (n i : nat) (tks : list plot.Tick) : list plot.Tick :=
  match n with
  | O => tks
  | S n' =>
      let t := nth i tks zeroTick in
      if String.eqb (plot.Label t) "" then Ticks_loop n' (S i) tks
      else
        Ticks_loop n' (S i)
          (store tks i (set_Label (nth i tks zeroTick)
                                  (relabel (plot.Label t))))
  end.

Definition Ticks (_ : rawTicks) (min max : float64) : list plot.Tick :=
  let tks := DefaultTicks min max in
  Ticks_loop (length tks) 0 tks.

End Ticks.

(** ** The helpers of package [myutil]

    The helpers copy their arguments into [plotter.XYs], build a plot
    through the plotting library, save it as [img.png] and start the
    viewer.  The library and the operating system are outside the
    package: a run is modelled by the sequence of calls it makes on them
    and by the way it ends.  Which calls fail is decided by the world,
    from the calls made so far and the call at hand. *)
Module plotter.
Record XY : Type := { X : float64; Y : float64 }.
Definition XYs : Type := list XY.
End plotter.

Module myutil.

(** What [p.Add] receives. *)
Inductive plotter_ : Type :=
| Line (data : plotter.XYs)
| Scatter (data : plotter.XYs) (Radius : vg.Length)
| Chart (cc : CandleChart).

(** The fields of the plot that [MyCandleChart] assigns. *)
Inductive field : Type :=
| Title_Text (s : string)
| X_Label_Text (s : string)
| Y_Label_Text (s : string)
| Y_Tick_Marker_RawTicks
| X_Min (v : float64)
| X_Max (v : float64).

Inductive call : Type :=
| plot_New
| plotter_NewLine (data : plotter.XYs)
| plotter_NewScatter (data : plotter.XYs)
| Plot_Add (what : plotter_)
| Plot_set (f : field)
| Plot_NominalX (names : list string)
| Plot_Save (w h : vg.Length) (file : string)
| exec_Command_Run (name : string) (args : list string).

(** How a run ends: it returns, panics with an error ([panic(err)]),
    panics in the runtime, or leaves through [log.Fatal]. *)
Inductive exit : Type :=
| Return
| PanicErr (e : error)
| PanicRuntime (p : panic)
| Fatal (msg : string).

Definition world : Type := list call -> call -> option error.

(** The rest of a run, from the calls made so far. *)
Definition script : Type := list call -> list call * exit.

(** A call whose error, if any, is passed to [panic]. *)
Definition try_ (w : world) (c : call) (k : script) : script :=
  fun h =>
    match w h c with
    | Some e => (h ++ [c], PanicErr e)
    | None => k (h ++ [c])
    end.

(** A call or assignment that returns no error. *)
Definition do_ (c : call) (k : script) : script :=
  fun h => k (h ++ [c]).

Definition done : script := fun h => (h, Return).

Definition Inch : vg.Length := of_int 72.

(** The end the helpers share: [p.Save(10*vg.Inch, 6*vg.Inch, file)]
    and [exec.Command("open", file).Run()] with [file := "img.png"]. *)
Definition save_and_open (w : world) : script :=
  let file := "img.png"%string in
  try_ w (Plot_Save (mul (of_int 10) Inch) (mul (of_int 6) Inch) file)
    (try_ w (exec_Command_Run "open" [file]) done).

(** The loop [for i := 0; i < len(x); i++] of [MySinglePlot] and
    [MySingleScatter], with [n] iterations left. *)
Fixpoint single_loop (n i : nat) (x : list float64) (data : plotter.XYs)
    : result plotter.XYs :=
  match n with
  | O => Ok data
  | S n' =>
      xi <- index x i ;;
      single_loop n' (S i) x
        (store data i {| plotter.X := of_int (Z.of_nat i); plotter.Y := xi |})
  end.

(** The same loop of [MyPlot], [MyScatter] and [MyPlotWithScatter]. *)
Fixpoint pair_loop (n i : nat) (x y : list float64) (data : plotter.XYs)
    : result plotter.XYs :=
  match n with
  | O => Ok data
  | S n' =>
      xi <- index x i ;;
      yi <- index y i ;;
      pair_loop n' (S i) x y
        (store data i {| plotter.X := xi; plotter.Y := yi |})
  end.

Definition zeroXY : plotter.XY := {| plotter.X := zero; plotter.Y := zero |}.

Definition make_XYs (n : nat) : plotter.XYs := repeat zeroXY n.

Definition single_data (x : list float64) : result plotter.XYs :=
  single_loop (length x) 0 x (make_XYs (length x)).

Definition pair_data (x y : list float64) : result plotter.XYs :=
  pair_loop (length x) 0 x y (make_XYs (length x)).

(** A run that goes on with the data once the loop has filled it. *)
Definition with_data (r : result plotter.XYs) (k : plotter.XYs -> script)
    : script :=
  match r with
  | Ok data => k data
  | Err e => fun h => (h, PanicErr e)
  | Panic p => fun h => (h, PanicRuntime p)
  end.

Definition fatal_length : string := "length of x and y have to same.".

Definition MySinglePlot (w : world) (x : list float64) : list call * exit :=
  with_data (single_data x) (fun data =>
    try_ w plot_New
      (try_ w (plotter_NewLine data)
         (do_ (Plot_Add (Line data)) (save_and_open w)))) [].

Definition MyPlot (w : world) (x y : list float64) : list call * exit :=
  if negb (length x =? length y)%nat then ([], Fatal fatal_length)
  else
    with_data (pair_data x y) (fun data =>
      try_ w plot_New
        (try_ w (plotter_NewLine data)
           (do_ (Plot_Add (Line data)) (save_and_open w)))) [].

Definition MySingleScatter (w : world) (x : list float64)
    : list call * exit :=
  with_data (single_data x) (fun data =>
    try_ w plot_New
      (try_ w (plotter_NewScatter data)
         (do_ (Plot_Add (Scatter data (of_int 1))) (save_and_open w)))) [].

Definition MyScatter (w : world) (x y : list float64) : list call * exit :=
  if negb (length x =? length y)%nat then ([], Fatal fatal_length)
  else
    with_data (pair_data x y) (fun data =>
      try_ w plot_New
        (try_ w (plotter_NewScatter data)
           (do_ (Plot_Add (Scatter data (of_int 2))) (save_and_open w)))) [].

Definition MyPlotWithScatter (w : world) (x y : list float64)
    : list call * exit :=
  if negb (length x =? length y)%nat then ([], Fatal fatal_length)
  else
    with_data (pair_data x y) (fun data =>
      try_ w plot_New
        (try_ w (plotter_NewScatter data)
           (do_ (Plot_Add (Scatter data (of_int 2)))
              (try_ w (plotter_NewLine data)
                 (do_ (Plot_Add (Line data)) (save_and_open w)))))) [].

(** [strconv.Itoa]. *)
Definition Itoa (i : Z) : string :=
  match i with
  | Z0 => "0"
  | Zpos p => strconv.decimal (Npos p)
  | Zneg p => "-" ++ strconv.decimal (Npos p)
  end.

(** The text [MyCandleChart] gives the X axis. *)
Definition time_label (bu : BarUnit) : string :=
  "Time [" ++ Itoa (T bu) ++ " " ++ transFormat2Unit (Unit bu) ++ "]".

(** [MyCandleChart] names the package's [transFormat2Unit] and
    [rawTicks] by exported names, [TransFormat2Unit] and [RawTicks]. *)
Definition MyCandleChart (w : world) (DefaultGlyphStyle : draw.GlyphStyle)
    (ts : list string) (data : list (list float64)) (bu : BarUnit)
    : list call * exit :=
  try_ w plot_New
    (fun h =>
       match NewCandleChart DefaultGlyphStyle data with
       | Err e => (h, PanicErr e)
       | Panic p => (h, PanicRuntime p)
       | Ok cc =>
           do_ (Plot_Add (Chart cc))
             (do_ (Plot_set (Title_Text "Candle Chart"))
             (do_ (Plot_set (X_Label_Text "Time"))
             (do_ (Plot_set (X_Label_Text (time_label bu)))
             (do_ (Plot_set (Y_Label_Text ("Price [" ++ "yen" ++ "]")))
             (do_ (Plot_set Y_Tick_Marker_RawTicks)
             (do_ (Plot_NominalX ts)
             (do_ (Plot_set (X_Min (of_decimal true 5 (-1))))
             (do_ (Plot_set
                     (X_Max (mul (of_int (Z.of_nat (length data)))
                                 (of_decimal false 11 (-1)))))
             (save_and_open w))))))))) h
       end) [].

End myutil.

(** ** Vocabulary of the statements *)

(** [m] is a minimum of [l]: an element of [l] that no element of [l]
    is below.  A NaN is below nothing and nothing is below it, so where
    no element is a NaN this is the least element (lemma
    [minimum_of_le]). *)
Definition minimum_of (m : float64) (l : list float64) : Prop :=
  In m l /\ forall d, In d l -> lt d m = false.

Definition maximum_of (m : float64) (l : list float64) : Prop :=
  In m l /\ forall d, In d l -> lt m d = false.

(** The position of a float in the order of the extended reals, as a
    triple compared lexicographically.  A NaN has no position; the key
    it is given is never compared. *)
Definition key (x : float64) : Z * Z * Z :=
  match x with
  | S754_nan => (0, 0, 0)
  | S754_zero _ => (0, 0, 0)
  | S754_infinity true => (-2, 0, 0)
  | S754_infinity false => (2, 0, 0)
  | S754_finite true m e => (-1, - e, Z.neg m)
  | S754_finite false m e => (1, e, Z.pos m)
  end.

Definition lex_lt (a b : Z * Z * Z) : Prop :=
  let '(a1, a2, a3) := a in
  let '(b1, b2, b3) := b in
  a1 < b1 \/ (a1 = b1 /\ (a2 < b2 \/ (a2 = b2 /\ a3 < b3))).

(** One candle per period, in order, stopping at the first error: what
    the loop of [NewCandles] computes, without the slice it fills. *)
Fixpoint candles_from (i : nat) (data : list (list float64))
    : result (list Candle) :=
  match data with
  | [] => Ok []
  | d :: data' =>
      c <- NewCandle (of_int (Z.of_nat i)) d ;;
      cs <- candles_from (S i) data' ;;
      Ok (c :: cs)
  end.

(** The scenario of the specification: two periods, drawn with the
    transforms [p |-> 100 p] and [v |-> 200 - 10 v] on a canvas tall
    enough that clipping changes nothing. *)
Definition sample_periods : list (list float64) :=
  [ [of_int 10; of_int 12; of_int 9; of_int 11];
    [of_int 11; of_int 10; of_int 13; of_int 9] ].

Definition sample_trX (p : float64) : vg.Length := mul (of_int 100) p.
Definition sample_trY (v : float64) : vg.Length :=
  sub (of_int 200) (mul (of_int 10) v).

Definition sample_plot : plot.Plot :=
  {| plot.Transforms := fun _ => (sample_trX, sample_trY) |}.

Definition open_canvas : draw.Canvas :=
  {| draw.ClipPolygonY := fun pts => pts;
     draw.ClipLinesY := fun lines => lines;
     draw.calls := [] |}.

Definition sample_glyph : draw.GlyphStyle :=
  {| draw.GlyphColor := color.Black;
     draw.Radius := vg.Points (of_decimal false 25 (-1));
     draw.Shape := draw.RingGlyph |}.

Definition sample_candle0 : Candle :=
  {| X := of_int 0; start := of_int 10; end_ := of_int 11;
     low := of_int 9; high := of_int 12; Color := color.White |}.

Definition sample_candle1 : Candle :=
  {| X := of_int 1; start := of_int 11; end_ := of_int 9;
     low := of_int 9; high := of_int 13; Color := color.Black |}.

Definition sample_chart (gs : draw.GlyphStyle) : CandleChart :=
  {| candles := [sample_candle0; sample_candle1];
     GlyphStyle := gs;
     CandleStyle := {| draw.LineColor := color.Black;
                       draw.Width := vg.Points (of_int 1);
                       draw.Dashes := [];
                       draw.DashOffs := zero |};
     WhiskerStyle := {| draw.LineColor := color.nil;
                        draw.Width := vg.Points (of_int 1);
                        draw.Dashes := [];
                        draw.DashOffs := zero |};
     Min_ := of_int 9;
     Max_ := of_int 13 |}.

Definition pt (x y : float64) : vg.Point := {| vg.X := x; vg.Y := y |}.

(** The six formats [transFormat2Unit] knows. *)
Definition formats : list string :=
  [FormatSecond; FormatMinute; FormatHour; FormatDay; FormatMonth;
   FormatYear].

(** What [Ticks] does to one tick. *)
Definition retick (t : plot.Tick) : plot.Tick :=
  if String.eqb (plot.Label t) "" then t
  else set_Label t (relabel (plot.Label t)).

(** A float whose value is an integer: a zero, or a finite float whose
    mantissa has no bit below the units. *)
Definition integral (f : float64) : bool :=
  match f with
  | S754_zero _ => true
  | S754_finite _ m (Zneg k) => (Npos m mod 2 ^ Npos k =? 0)%N
  | S754_finite _ _ _ => true
  | _ => false
  end.

(** The number a string of decimal digits denotes, read from the left
    with [acc] the number read so far. *)
Fixpoint uint_acc (d : Decimal.uint) (acc : N) : N :=
  match d with
  | Decimal.Nil => acc
  | Decimal.D0 d => uint_acc d (acc * 10 + 0)
  | Decimal.D1 d => uint_acc d (acc * 10 + 1)
  | Decimal.D2 d => uint_acc d (acc * 10 + 2)
  | Decimal.D3 d => uint_acc d (acc * 10 + 3)
  | Decimal.D4 d => uint_acc d (acc * 10 + 4)
  | Decimal.D5 d => uint_acc d (acc * 10 + 5)
  | Decimal.D6 d => uint_acc d (acc * 10 + 6)
  | Decimal.D7 d => uint_acc d (acc * 10 + 7)
  | Decimal.D8 d => uint_acc d (acc * 10 + 8)
  | Decimal.D9 d => uint_acc d (acc * 10 + 9)
  end%N.

(** A period with the first and last samples of [c] exchanged, as far as
    a candle records it. *)
Definition swap_ends (c : Candle) : Candle :=
  {| X := X c; start := end_ c; end_ := start c; low := low c;
     high := high c; Color := Color c |}.

(** The three draw calls [Plot] makes for one candle on canvas [c]. *)
Definition candle_calls (cc : CandleChart) (trX trY : float64 -> vg.Length)
    (w : vg.Length) (c : draw.Canvas) (candle : Candle) : list draw.Call :=
  let x := trX (X candle) in
  let q1 := if lt (start candle) (end_ candle)
            then trY (start candle) else trY (end_ candle) in
  let q3 := if lt (start candle) (end_ candle)
            then trY (end_ candle) else trY (start candle) in
  let pts := body_pts cc x w q1 q3 in
  [ draw.CallFillPolygon (Color candle) (draw.ClipPolygonY c pts);
    draw.CallStrokeLines (CandleStyle cc) (draw.ClipLinesY c [pts]);
    draw.CallStrokeLines (WhiskerStyle cc)
      (draw.ClipLinesY c
         (whisker_lines x (trY (low candle)) (trY (high candle)) q1 q3)) ].

(** A label made of an optional minus sign and decimal digits, at least
    one, or one of the three names of the values that are not finite. *)
Definition all_digits (l : string) : bool :=
  forallb strconv.isDigit (list_ascii_of_string l).

Definition integer_label (l : string) : Prop :=
  In l ["NaN"; "+Inf"; "-Inf"]%string \/
  exists neg digits,
    l = (strconv.sign neg ++ digits)%string /\
    digits <> ""%string /\ all_digits digits = true.

(** The calls every helper of [myutil] ends with when nothing fails. *)
Definition saved_and_opened : list myutil.call :=
  [ myutil.Plot_Save (of_int 720) (of_int 432) "img.png";
    myutil.exec_Command_Run "open" ["img.png"%string] ].

(** The points the helpers hand to the plotting library. *)
Definition pair_points (x y : list float64) : plotter.XYs :=
  map (fun xy => {| plotter.X := fst xy; plotter.Y := snd xy |})
      (combine x y).

Definition single_points (x : list float64) : plotter.XYs :=
  map (fun ix => {| plotter.X := of_int (Z.of_nat (fst ix));
                    plotter.Y := snd ix |})
      (combine (seq 0 (length x)) x).

(** A world in which no call fails. *)
Definition calm : myutil.world := fun _ _ => None.

(** In the calls of a run the viewer is started at most once, last, on
    [img.png], and right after a [Save] of [img.png] that did not
    fail. *)
Definition opens_after_save (w : myutil.world)
    (r : list myutil.call * myutil.exit) : Prop :=
  forall pre name args post,
    fst r = pre ++ myutil.exec_Command_Run name args :: post ->
    post = [] /\ name = "open"%string /\ args = ["img.png"%string] /\
    exists pre' wd ht,
      pre = pre' ++ [myutil.Plot_Save wd ht "img.png"] /\
      w pre' (myutil.Plot_Save wd ht "img.png") = None.

Definition no_Run (h : list myutil.call) : Prop :=
  forall name args, ~ In (myutil.exec_Command_Run name args) h.

(** A continuation that keeps the viewer after the save, from any calls
    made so far that have not started the viewer. *)
Definition opens_well (w : myutil.world) (k : myutil.script) : Prop :=
  forall h, no_Run h -> opens_after_save w (k h).

(** The order [math.Min] selects by: -Inf first, then NaN, then the
    numbers in increasing order with -0 before +0.  [math.Max] selects by
    the mirrored order: +Inf first, then NaN, then the numbers in
    decreasing order with +0 before -0. *)
Definition rank_min (x : float64) : Z * Z * Z * Z :=
  match x with
  | S754_infinity true => (-4, 0, 0, 0)
  | S754_nan => (-3, 0, 0, 0)
  | S754_finite true m e => (-1, - e, Z.neg m, 0)
  | S754_zero true => (0, 0, 0, 0)
  | S754_zero false => (0, 0, 0, 1)
  | S754_finite false m e => (1, e, Z.pos m, 0)
  | S754_infinity false => (2, 0, 0, 0)
  end.

Definition rank_max (x : float64) : Z * Z * Z * Z :=
  match x with
  | S754_infinity false => (-4, 0, 0, 0)
  | S754_nan => (-3, 0, 0, 0)
  | S754_finite false m e => (-1, - e, Z.neg m, 0)
  | S754_zero false => (0, 0, 0, 0)
  | S754_zero true => (0, 0, 0, 1)
  | S754_finite true m e => (1, e, Z.pos m, 0)
  | S754_infinity true => (2, 0, 0, 0)
  end.

Definition cmp4 (a b : Z * Z * Z * Z) : comparison :=
  let '(a1, a2, a3, a4) := a in
  let '(b1, b2, b3, b4) := b in
  match a1 ?= b1 with
  | Eq => match a2 ?= b2 with
          | Eq => match a3 ?= b3 with
                  | Eq => a4 ?= b4
                  | c => c
                  end
          | c => c
          end
  | c => c
  end.

Definition lex_lt4 (a b : Z * Z * Z * Z) : Prop :=
  let '(a1, a2, a3, a4) := a in
  let '(b1, b2, b3, b4) := b in
  a1 < b1 \/ (a1 = b1 /\ (a2 < b2 \/ (a2 = b2 /\
    (a3 < b3 \/ (a3 = b3 /\ a4 < b4))))).

(** The one of [x] and [y] that comes first by rank [r], [x] on a tie. *)
Definition first_by (r : float64 -> Z * Z * Z * Z) (x y : float64)
    : float64 :=
  match cmp4 (r x) (r y) with
  | Gt => y
  | _ => x
  end.

(** * Theorems *)

(** ** The order of floats *)

Ltac order_case :=
  split; intro; first [reflexivity | discriminate | lia].

Lemma lt_key (x y : float64) :
  IsNaN x = false -> IsNaN y = false ->
  (lt x y = true <-> lex_lt (key x) (key y)).
Proof.
  unfold lt, SFltb, lex_lt.
  destruct x as [sx|sx| |sx mx ex], y as [sy|sy| |sy my ey];
    try discriminate; intros _ _; cbn [SFcompare key];
    try (destruct sx); try (destruct sy); cbn; try order_case.
  all: change (PosDef.Pos.compare_cont Eq mx my) with (mx ?= my)%positive;
    destruct (Z.compare_spec ex ey), (Pos.compare_spec mx my); cbn;
    order_case.
Qed.

Lemma eq_key (x y : float64) :
  IsNaN x = false -> IsNaN y = false ->
  (eq x y = true <-> key x = key y).
Proof.
  unfold eq, SFeqb.
  destruct x as [sx|sx| |sx mx ex], y as [sy|sy| |sy my ey];
    try discriminate; intros _ _; cbn [SFcompare key];
    try (destruct sx); try (destruct sy); cbn;
    try (split; intro; first [reflexivity | discriminate | congruence]).
  all: change (PosDef.Pos.compare_cont Eq mx my) with (mx ?= my)%positive;
    destruct (Z.compare_spec ex ey), (Pos.compare_spec mx my); cbn;
    split; intro H'; try reflexivity; try discriminate;
    try (injection H'; intros; lia); try (subst; reflexivity).
Qed.

Lemma le_key (x y : float64) :
  IsNaN x = false -> IsNaN y = false ->
  (le x y = true <-> ~ lex_lt (key y) (key x)).
Proof.
  unfold le, SFleb, lex_lt.
  destruct x as [sx|sx| |sx mx ex], y as [sy|sy| |sy my ey];
    try discriminate; intros _ _; cbn [SFcompare key];
    try (destruct sx); try (destruct sy); cbn; try order_case.
  all: change (PosDef.Pos.compare_cont Eq mx my) with (mx ?= my)%positive;
    destruct (Z.compare_spec ex ey), (Pos.compare_spec mx my); cbn;
    order_case.
Qed.

Lemma lt_nan_l (y : float64) : lt NaN y = false.
Proof. reflexivity. Qed.

Lemma lt_nan_r (x : float64) : lt x NaN = false.
Proof. destruct x; reflexivity. Qed.

Lemma lt_false_key (x y : float64) :
  lt x y = false <->
  IsNaN x = true \/ IsNaN y = true \/ ~ lex_lt (key x) (key y).
Proof.
  destruct (IsNaN x) eqn:Hx.
  - destruct x; try discriminate. split; auto.
  - destruct (IsNaN y) eqn:Hy.
    + destruct y; try discriminate. rewrite lt_nan_r. split; auto.
    + pose proof (lt_key x y Hx Hy) as K.
      destruct (lt x y); split.
      * discriminate.
      * intros [H|[H|H]]; try discriminate. exfalso. apply H, K. reflexivity.
      * intros _. right. right. intro L. apply K in L. discriminate.
      * reflexivity.
Qed.

(** ** [math.Min] and [math.Max] *)

Lemma lt_inf_neg (z : float64) : lt z (S754_infinity true) = false.
Proof. destruct z as [s|s| |s m e]; try destruct s; reflexivity. Qed.

Lemma lt_inf_pos (z : float64) : lt (S754_infinity false) z = false.
Proof. destruct z as [s|s| |s m e]; try destruct s; reflexivity. Qed.

Lemma lt_irrefl (x : float64) : lt x x = false.
Proof.
  apply lt_false_key. right. right.
  unfold lex_lt. destruct (key x) as [[a b] c]. lia.
Qed.

(** Not being below is transitive through comparable floats. *)
Lemma not_lt_trans (x y z : float64) :
  IsNaN y = false ->
  lt x y = false -> lt y z = false -> lt x z = false.
Proof.
  intros Hy Hxy Hyz.
  apply lt_false_key in Hxy. apply lt_false_key in Hyz.
  apply lt_false_key.
  destruct Hxy as [H|[H|Hxy]]; [auto | congruence | ].
  destruct Hyz as [H|[H|Hyz]]; [congruence | auto | ].
  right. right. revert Hxy Hyz. unfold lex_lt.
  destruct (key x) as [[a1 a2] a3], (key y) as [[b1 b2] b3],
           (key z) as [[c1 c2] c3]. lia.
Qed.

Lemma lt_not_lt_trans (x y z : float64) :
  lt x y = false -> lt z y = true -> lt x z = false.
Proof.
  intros Hxy Hzy.
  assert (Hz : IsNaN z = false)
    by (destruct z; [reflexivity.. | discriminate | reflexivity]).
  assert (Hy : IsNaN y = false).
  { destruct y; try reflexivity. rewrite lt_nan_r in Hzy. discriminate. }
  apply lt_key in Hzy; auto.
  apply lt_false_key in Hxy. apply lt_false_key.
  destruct Hxy as [H|[H|Hxy]]; [auto | congruence | ].
  right. right. revert Hxy Hzy. unfold lex_lt.
  destruct (key x) as [[a1 a2] a3], (key y) as [[b1 b2] b3],
           (key z) as [[c1 c2] c3]. lia.
Qed.

Lemma Min_cases (x y : float64) : Min x y = x \/ Min x y = y.
Proof.
  unfold Min.
  destruct x as [sx|[|]| |sx mx ex], y as [sy|[|]| |sy my ey]; cbn; auto;
    repeat match goal with
           | |- context [if ?b then _ else _] => destruct b; auto
           end.
Qed.

Lemma Max_cases (x y : float64) : Max x y = x \/ Max x y = y.
Proof.
  unfold Max.
  destruct x as [sx|[|]| |sx mx ex], y as [sy|[|]| |sy my ey]; cbn; auto;
    repeat match goal with
           | |- context [if ?b then _ else _] => destruct b; auto
           end.
Qed.

Lemma eq_zero_inv (x : float64) :
  eq x zero = true -> exists s, x = S754_zero s.
Proof.
  destruct x as [s|[|]| |[|] m e]; try discriminate. eauto.
Qed.

Lemma eq_zero_l_inv (s : bool) (y : float64) :
  eq (S754_zero s) y = true -> exists s', y = S754_zero s'.
Proof.
  destruct y as [s'|[|]| |[|] m e]; try discriminate. eauto.
Qed.

(** Whatever is not below [m] is not below [Min m d]. *)
Lemma Min_below (z m d : float64) :
  lt z m = false -> lt z (Min m d) = false.
Proof.
  intros H. unfold Min.
  destruct (IsInf m (-1) || IsInf d (-1)); [apply lt_inf_neg|].
  destruct (IsNaN m || IsNaN d) eqn:Hn; [apply lt_nan_r|].
  apply orb_false_elim in Hn. destruct Hn as [Hm Hd].
  destruct (eq m zero && eq m d) eqn:Hz.
  - apply andb_prop in Hz. destruct Hz as [Hz1 Hz2].
    apply eq_zero_inv in Hz1. destruct Hz1 as [s ->].
    apply eq_zero_l_inv in Hz2. destruct Hz2 as [s' ->].
    cbn [Signbit]. destruct s; exact H.
  - destruct (lt m d) eqn:Hlt; auto.
    now apply not_lt_trans with m.
Qed.

Lemma Min_self (m d : float64) : lt d (Min m d) = false.
Proof.
  unfold Min.
  destruct (IsInf m (-1) || IsInf d (-1)); [apply lt_inf_neg|].
  destruct (IsNaN m || IsNaN d) eqn:Hn; [apply lt_nan_r|].
  destruct (eq m zero && eq m d) eqn:Hz.
  - apply andb_prop in Hz. destruct Hz as [Hz1 Hz2].
    apply eq_zero_inv in Hz1. destruct Hz1 as [s ->].
    apply eq_zero_l_inv in Hz2. destruct Hz2 as [s' ->].
    destruct s; reflexivity.
  - destruct (lt m d) eqn:Hlt; [|apply lt_irrefl].
    apply lt_not_lt_trans with d; auto. apply lt_irrefl.
Qed.

(** Whatever [m] is not below, [Max m d] is not below. *)
Lemma Max_above (z m d : float64) :
  lt m z = false -> lt (Max m d) z = false.
Proof.
  intros H. unfold Max.
  destruct (IsInf m 1 || IsInf d 1); [apply lt_inf_pos|].
  destruct (IsNaN m || IsNaN d) eqn:Hn; [apply lt_nan_l|].
  apply orb_false_elim in Hn. destruct Hn as [Hm Hd].
  destruct (eq m zero && eq m d) eqn:Hz.
  - apply andb_prop in Hz. destruct Hz as [Hz1 Hz2].
    apply eq_zero_inv in Hz1. destruct Hz1 as [s ->].
    apply eq_zero_l_inv in Hz2. destruct Hz2 as [s' ->].
    cbn [Signbit]. destruct s; exact H.
  - change (gt m d) with (lt d m). destruct (lt d m) eqn:Hlt; auto.
    now apply not_lt_trans with m.
Qed.

Lemma Max_self (m d : float64) : lt (Max m d) d = false.
Proof.
  unfold Max.
  destruct (IsInf m 1 || IsInf d 1); [apply lt_inf_pos|].
  destruct (IsNaN m || IsNaN d) eqn:Hn; [apply lt_nan_l|].
  destruct (eq m zero && eq m d) eqn:Hz.
  - apply andb_prop in Hz. destruct Hz as [Hz1 Hz2].
    apply eq_zero_inv in Hz1. destruct Hz1 as [s ->].
    apply eq_zero_l_inv in Hz2. destruct Hz2 as [s' ->].
    destruct s; reflexivity.
  - change (gt m d) with (lt d m).
    destruct (lt d m) eqn:Hlt; [|apply lt_irrefl].
    apply lt_not_lt_trans with m; auto. apply lt_irrefl.
Qed.

(** ** Folds that keep one of their arguments

    [NewCandle], [getMin] and [getMax] all scan a slice with a step that
    keeps the running value or takes the new element.  [R d m] reads
    "[m] is an acceptable extreme for [d]". *)
Section SelectFold.

Variable step : float64 -> float64 -> float64.
Variable R : float64 -> float64 -> Prop.

Hypothesis step_cases : forall m d, step m d = m \/ step m d = d.
Hypothesis step_keeps : forall z m d, R z m -> R z (step m d).
Hypothesis step_self : forall m d, R d (step m d).

Lemma fold_select_in (l : list float64) (m0 : float64) :
  fold_left step l m0 = m0 \/ In (fold_left step l m0) l.
Proof.
  revert m0. induction l as [|d l IH]; intros m0; cbn; auto.
  destruct (IH (step m0 d)) as [E|I]; auto.
  rewrite E. destruct (step_cases m0 d) as [-> | ->]; auto.
Qed.

Lemma fold_select_keeps (l : list float64) (m0 z : float64) :
  R z m0 -> R z (fold_left step l m0).
Proof.
  revert m0. induction l as [|d l IH]; intros m0 H; cbn; auto.
Qed.

Lemma fold_select_all (l : list float64) (m0 d : float64) :
  In d l -> R d (fold_left step l m0).
Proof.
  revert m0. induction l as [|d' l IH]; intros m0 H; cbn; [contradiction|].
  destruct H as [-> | H]; auto.
  apply fold_select_keeps, step_self.
Qed.

End SelectFold.

Lemma fold_Min_minimum (d0 : float64) (l : list float64) :
  minimum_of (fold_left Min (d0 :: l) d0) (d0 :: l).
Proof.
  split.
  - destruct (fold_select_in Min Min_cases (d0 :: l) d0) as [E|I]; auto.
    rewrite E. now left.
  - intros d Hd.
    apply (fold_select_all Min (fun d m => lt d m = false)); auto.
    + intros z m d'. apply Min_below.
    + intros m d'. apply Min_self.
Qed.

Lemma fold_Max_maximum (d0 : float64) (l : list float64) :
  maximum_of (fold_left Max (d0 :: l) d0) (d0 :: l).
Proof.
  split.
  - destruct (fold_select_in Max Max_cases (d0 :: l) d0) as [E|I]; auto.
    rewrite E. now left.
  - intros d Hd.
    apply (fold_select_all Max (fun d m => lt m d = false)); auto.
    + intros z m d'. apply Max_above.
    + intros m d'. apply Max_self.
Qed.

(** Without NaNs a minimum is the least element and a maximum the
    greatest. *)
Lemma minimum_of_le (m : float64) (l : list float64) :
  minimum_of m l -> (forall d, In d l -> IsNaN d = false) ->
  forall d, In d l -> le m d = true.
Proof.
  intros [Hin Hlb] Hnan d Hd.
  apply le_key; auto.
  specialize (Hlb d Hd). apply lt_false_key in Hlb.
  destruct Hlb as [H|[H|H]]; auto.
  - rewrite Hnan in H; auto. discriminate.
  - rewrite Hnan in H; auto. discriminate.
Qed.

Lemma maximum_of_le (m : float64) (l : list float64) :
  maximum_of m l -> (forall d, In d l -> IsNaN d = false) ->
  forall d, In d l -> le d m = true.
Proof.
  intros [Hin Hub] Hnan d Hd.
  apply le_key; auto.
  specialize (Hub d Hd). apply lt_false_key in Hub.
  destruct Hub as [H|[H|H]]; auto.
  - rewrite Hnan in H; auto. discriminate.
  - rewrite Hnan in H; auto. discriminate.
Qed.

(** ** [NewCandle] *)

Lemma nth_error_last {A : Type} (a : A) (l : list A) (d : A) :
  nth_error (a :: l) (length l) = Some (last (a :: l) d).
Proof.
  revert a. induction l as [|b l IH]; intros a; [reflexivity|].
  cbn [length nth_error]. rewrite IH. reflexivity.
Qed.

Lemma NewCandle_fold (data : list float64) (c : Candle) :
  let c' := fold_left NewCandle_step data c in
  X c' = X c /\ start c' = start c /\ end_ c' = end_ c /\
  Color c' = Color c /\
  low c' = fold_left Min data (low c) /\
  high c' = fold_left Max data (high c).
Proof.
  revert c. induction data as [|d data IH]; intros c; cbn.
  - repeat split.
  - specialize (IH (NewCandle_step c d)). cbn in IH. exact IH.
Qed.

Lemma NewCandle_nil (x : float64) : NewCandle x [] = Err EmptyInput.
Proof. reflexivity. Qed.

(** The candle [NewCandle] returns for a non-empty period. *)
Lemma NewCandle_cons (x d0 : float64) (l : list float64) :
  NewCandle x (d0 :: l) =
  Ok {| X := x; start := d0; end_ := last (d0 :: l) d0;
        low := fold_left Min (d0 :: l) d0;
        high := fold_left Max (d0 :: l) d0;
        Color := if gt d0 (last (d0 :: l) d0)
                 then color.Black else color.White |}.
Proof.
  unfold NewCandle.
  change (length (d0 :: l) =? 0)%nat with false. cbv iota.
  change (index (d0 :: l) 0) with (Ok d0). cbn [bind].
  assert (Hn : nth_error (d0 :: l) (length (d0 :: l) - 1)
               = Some (last (d0 :: l) d0)).
  { cbn [length]. rewrite Nat.sub_succ, Nat.sub_0_r. apply nth_error_last. }
  unfold index at 1. rewrite Hn. cbn [bind].
  set (c := {| X := x; start := d0; end_ := last (d0 :: l) d0; low := d0;
               high := d0;
               Color := if gt d0 (last (d0 :: l) d0)
                        then color.Black else color.White |}).
  destruct (NewCandle_fold (d0 :: l) c) as (HX & Hs & He & HC & Hl & Hh).
  destruct (fold_left NewCandle_step (d0 :: l) c) as [X' s' e' l' h' C'].
  cbn in HX, Hs, He, HC, Hl, Hh. subst. reflexivity.
Qed.

Lemma eq_not_gt (x y : float64) : eq x y = true -> gt x y = false.
Proof.
  intros H. unfold gt.
  assert (Hx : IsNaN x = false)
    by (destruct x; [reflexivity.. | discriminate | reflexivity]).
  assert (Hy : IsNaN y = false).
  { destruct y; try reflexivity. destruct x; discriminate. }
  apply eq_key in H; auto.
  apply lt_false_key. right. right. rewrite H. unfold lex_lt.
  destruct (key y) as [[a b] c]. lia.
Qed.

Lemma Plot_step_calls (cc : CandleChart) (trX trY : float64 -> vg.Length)
    (w : vg.Length) (c : draw.Canvas) (candle : Candle) :
  let x := trX (X candle) in
  let q1 := if lt (start candle) (end_ candle)
            then trY (start candle) else trY (end_ candle) in
  let q3 := if lt (start candle) (end_ candle)
            then trY (end_ candle) else trY (start candle) in
  let pts := body_pts cc x w q1 q3 in
  draw.calls (Plot_step cc trX trY w c candle) =
  draw.calls c ++
  [ draw.CallFillPolygon (Color candle) (draw.ClipPolygonY c pts);
    draw.CallStrokeLines (CandleStyle cc) (draw.ClipLinesY c [pts]);
    draw.CallStrokeLines (WhiskerStyle cc)
      (draw.ClipLinesY c
         (whisker_lines x (trY (low candle)) (trY (high candle)) q1 q3)) ].
Proof.
  unfold Plot_step. destruct (lt (start candle) (end_ candle)); cbn;
    rewrite <- !app_assoc; reflexivity.
Qed.

(** C1: for every [x] and every sample array [data], [NewCandle x data]
    returns an error exactly when [data] has zero length (and then the
    error is [EmptyInput]); otherwise it returns a candle at position
    [x] with [start = data[0]], [end = data[len(data)-1]], [low] the
    [math.Min]-fold of the samples and a minimum of [data], [high] the
    [math.Max]-fold and a maximum of [data].  It never panics. *)
Theorem NewCandle_correct (x : float64) (data : list float64) :
  match NewCandle x data with
  | Ok c =>
      data <> [] /\ X c = x /\
      nth_error data 0 = Some (start c) /\
      nth_error data (length data - 1) = Some (end_ c) /\
      low c = fold_left Min data (start c) /\
      high c = fold_left Max data (start c) /\
      minimum_of (low c) data /\ maximum_of (high c) data
  | Err e => data = [] /\ e = EmptyInput
  | Panic _ => False
  end.
Proof.
  destruct data as [|d0 l].
  - rewrite NewCandle_nil. split; reflexivity.
  - rewrite NewCandle_cons. cbn [X start end_ low high].
    repeat split; try reflexivity.
    + discriminate.
    + cbn [length]. rewrite Nat.sub_succ, Nat.sub_0_r.
      apply nth_error_last.
    + apply fold_Min_minimum.
    + apply fold_Min_minimum.
    + apply fold_Max_maximum.
    + apply fold_Max_maximum.
Qed.

(** X1: a candle built from samples without NaN keeps its low at most,
    and its high at least, its first and last samples. *)
Lemma NewCandle_invariant (x : float64) (data : list float64) (c : Candle) :
  NewCandle x data = Ok c ->
  (forall d, In d data -> IsNaN d = false) ->
  le (low c) (start c) = true /\ le (low c) (end_ c) = true /\
  le (start c) (high c) = true /\ le (end_ c) (high c) = true.
Proof.
  intros H Hnan. destruct data as [|d0 l]; [discriminate|].
  rewrite NewCandle_cons in H. injection H as <-. cbn [low high start end_].
  assert (Hs : In d0 (d0 :: l)) by now left.
  assert (He : In (last (d0 :: l) d0) (d0 :: l)).
  { apply nth_error_In with (length l). apply nth_error_last. }
  pose proof (fold_Min_minimum d0 l) as Hmin.
  pose proof (fold_Max_maximum d0 l) as Hmax.
  repeat split.
  - now apply (minimum_of_le _ (d0 :: l)).
  - now apply (minimum_of_le _ (d0 :: l)).
  - now apply (maximum_of_le _ (d0 :: l)).
  - now apply (maximum_of_le _ (d0 :: l)).
Qed.

(** C6: a candle built by [NewCandle] is black exactly when its first
    sample is strictly greater than its last and white otherwise, equal
    first and last samples included; [Plot] fills the candle's body with
    that color. *)
Theorem NewCandle_direction (x : float64) (data : list float64) (c : Candle) :
  NewCandle x data = Ok c ->
  (Color c = color.Black <-> gt (start c) (end_ c) = true) /\
  (Color c = color.White <-> gt (start c) (end_ c) = false) /\
  (eq (start c) (end_ c) = true -> Color c = color.White) /\
  (forall cc trX trY w cv, exists poly rest,
      draw.calls (Plot_step cc trX trY w cv c) =
      draw.calls cv ++
      draw.CallFillPolygon
        (if gt (start c) (end_ c) then color.Black else color.White) poly
      :: rest).
Proof.
  intros H. destruct data as [|d0 l]; [discriminate|].
  rewrite NewCandle_cons in H. injection H as <-. cbn [Color start end_].
  assert (HC : forall b : bool,
             ((if b then color.Black else color.White) = color.Black
              <-> b = true) /\
             ((if b then color.Black else color.White) = color.White
              <-> b = false)).
  { intros [|]; repeat split; intros; try reflexivity; discriminate. }
  repeat split; try apply HC.
  - intros E. rewrite (eq_not_gt _ _ E). reflexivity.
  - intros cc trX trY w cv. rewrite Plot_step_calls. cbn [Color start end_].
    eexists. eexists. reflexivity.
Qed.

Lemma NewCandle_direction_witness :
  let c := {| X := zero; start := of_int 10; end_ := of_int 11;
              low := of_int 9; high := of_int 12; Color := color.White |} in
  (Color c = color.Black <-> gt (start c) (end_ c) = true) /\
  (Color c = color.White <-> gt (start c) (end_ c) = false) /\
  (eq (start c) (end_ c) = true -> Color c = color.White) /\
  (forall cc trX trY w cv, exists poly rest,
      draw.calls (Plot_step cc trX trY w cv c) =
      draw.calls cv ++
      draw.CallFillPolygon
        (if gt (start c) (end_ c) then color.Black else color.White) poly
      :: rest).
Proof.
  exact (NewCandle_direction zero
           [of_int 10; of_int 12; of_int 9; of_int 11]
           {| X := zero; start := of_int 10; end_ := of_int 11;
              low := of_int 9; high := of_int 12; Color := color.White |}
           eq_refl).
Defined.

(** ** [NewCandles] *)

Lemma store_app {A : Type} (pre : list A) (z : A) (post : list A) (a : A) :
  store (pre ++ z :: post) (length pre) a = pre ++ a :: post.
Proof.
  induction pre as [|b pre IH]; cbn; [reflexivity|]. now rewrite IH.
Qed.

Lemma NewCandles_loop_spec (data : list (list float64)) :
  forall (pre post : list Candle),
    length post = length data ->
    NewCandles_loop (length pre) data (pre ++ post) =
    (cs <- candles_from (length pre) data ;; Ok (pre ++ cs)).
Proof.
  induction data as [|d data IH]; intros pre post Hlen.
  - destruct post; [|discriminate]. reflexivity.
  - destruct post as [|z post]; [discriminate|].
    cbn [NewCandles_loop candles_from].
    destruct (NewCandle (of_int (Z.of_nat (length pre))) d) as [c|e|p];
      cbn [bind]; try reflexivity.
    rewrite store_app.
    change (pre ++ c :: post) with (pre ++ [c] ++ post).
    rewrite app_assoc.
    replace (S (length pre)) with (length (pre ++ [c]))
      by (rewrite length_app; cbn; lia).
    rewrite IH by (cbn in Hlen; lia).
    destruct (candles_from (length (pre ++ [c])) data) as [cs|e|p];
      cbn [bind]; try reflexivity.
    rewrite <- app_assoc. reflexivity.
Qed.

Lemma NewCandles_candles_from (data : list (list float64)) :
  NewCandles data = candles_from 0 data.
Proof.
  unfold NewCandles.
  pose proof (NewCandles_loop_spec data [] (repeat zeroCandle (length data))
                (repeat_length _ _)) as H.
  cbn [length app] in H. rewrite H.
  destruct (candles_from 0 data); reflexivity.
Qed.

(** A period without samples makes [NewCandles] return [EmptyInput]. *)
Lemma candles_from_empty_period (data : list (list float64)) (i : nat) :
  In [] data -> candles_from i data = Err EmptyInput.
Proof.
  revert i. induction data as [|d data IH]; intros i H; [contradiction|].
  cbn [candles_from]. destruct d as [|d0 l].
  - reflexivity.
  - rewrite NewCandle_cons. cbn [bind].
    destruct H as [H|H]; [discriminate|]. now rewrite IH.
Qed.

Lemma NewCandles_empty_period (data : list (list float64)) :
  In [] data -> NewCandles data = Err EmptyInput.
Proof.
  intros H. rewrite NewCandles_candles_from.
  now apply candles_from_empty_period.
Qed.

(** Periods that all have samples give one candle each, candle [k] at
    position [float64(i + k)] and built by [NewCandle] from period [k]. *)
Lemma candles_from_ok (data : list (list float64)) (i : nat) :
  Forall (fun d => d <> []) data ->
  exists cs, candles_from i data = Ok cs /\ length cs = length data /\
    forall k d, nth_error data k = Some d ->
      exists c, nth_error cs k = Some c /\
                NewCandle (of_int (Z.of_nat (i + k))) d = Ok c.
Proof.
  revert i. induction data as [|d data IH]; intros i H.
  - exists []. repeat split. intros [|k] d; discriminate.
  - inversion H as [|d' data' Hd Hdata]; subst.
    destruct (IH (S i) Hdata) as (cs & E & Hl & Hk).
    destruct d as [|d0 l]; [congruence|].
    cbn [candles_from]. rewrite NewCandle_cons, E. cbn [bind].
    eexists. split; [reflexivity|]. split; [cbn; lia|].
    intros [|k] d Hn; cbn in Hn.
    + injection Hn as <-. eexists. split; [reflexivity|].
      rewrite Nat.add_0_r. apply NewCandle_cons.
    + destruct (Hk k d Hn) as (c & Hc & HN). exists c. split; [exact Hc|].
      now rewrite <- Nat.add_succ_comm.
Qed.

Lemma NewCandles_ok (data : list (list float64)) :
  Forall (fun d => d <> []) data ->
  exists cs, NewCandles data = Ok cs /\ length cs = length data /\
    forall k d, nth_error data k = Some d ->
      exists c, nth_error cs k = Some c /\
                NewCandle (of_int (Z.of_nat k)) d = Ok c.
Proof.
  intros H. rewrite NewCandles_candles_from.
  exact (candles_from_ok data 0 H).
Qed.

(** [NewCandles] never panics, and [EmptyInput] is its only error. *)
Lemma candles_from_result (data : list (list float64)) (i : nat) :
  match candles_from i data with
  | Ok cs => Forall (fun d => d <> []) data
  | Err e => e = EmptyInput /\ In [] data
  | Panic _ => False
  end.
Proof.
  revert i. induction data as [|d data IH]; intros i; cbn [candles_from].
  - constructor.
  - destruct d as [|d0 l]; [cbn; auto|].
    rewrite NewCandle_cons. cbn [bind]. specialize (IH (S i)).
    destruct (candles_from (S i) data); cbn [bind].
    + constructor; [discriminate|assumption].
    + destruct IH. split; [assumption|now right].
    + assumption.
Qed.

(** ** [getMin], [getMax] and [NewCandleChart] *)

Lemma lt_lt_not_lt (x y z : float64) :
  lt y x = false -> lt y z = true -> lt z x = false.
Proof.
  intros Hyx Hyz.
  assert (Hy : IsNaN y = false)
    by (destruct y; [reflexivity.. | discriminate | reflexivity]).
  assert (Hz : IsNaN z = false).
  { destruct z; try reflexivity. rewrite lt_nan_r in Hyz. discriminate. }
  apply lt_key in Hyz; auto.
  apply lt_false_key in Hyx. apply lt_false_key.
  destruct Hyx as [H|[H|Hyx]]; [congruence | auto | ].
  right. right. revert Hyx Hyz. unfold lex_lt.
  destruct (key x) as [[a1 a2] a3], (key y) as [[b1 b2] b3],
           (key z) as [[c1 c2] c3]. lia.
Qed.

Lemma fold_left_map {A B C : Type} (f : A -> C -> A) (g : B -> C)
    (l : list B) (a : A) :
  fold_left (fun a b => f a (g b)) l a = fold_left f (map g l) a.
Proof.
  revert a. induction l as [|b l IH]; intros a; cbn; [reflexivity|].
  apply IH.
Qed.

Lemma getMin_nil : getMin [] = Panic (IndexOutOfRange 0 0).
Proof. reflexivity. Qed.

Lemma getMax_nil : getMax [] = Panic (IndexOutOfRange 0 0).
Proof. reflexivity. Qed.

Lemma getMin_cons (c0 : Candle) (cs : list Candle) :
  exists m, getMin (c0 :: cs) = Ok m /\
            minimum_of m (map low (c0 :: cs)).
Proof.
  unfold getMin. cbn [index nth_error bind].
  rewrite (fold_left_map (fun min v => if gt min v then v else min) low).
  set (step := fun min v : float64 => if gt min v then v else min).
  eexists. split; [reflexivity|]. split.
  - destruct (fold_select_in step) with (l := map low (c0 :: cs))
      (m0 := low c0) as [E|I]; auto.
    + intros m d. unfold step. destruct (gt m d); auto.
    + rewrite E. now left.
  - intros d Hd.
    apply (fold_select_all step (fun d m => lt d m = false)); auto.
    + intros z m v H. unfold step. change (gt m v) with (lt v m).
      destruct (lt v m) eqn:E; auto.
      now apply lt_not_lt_trans with m.
    + intros m v. unfold step. change (gt m v) with (lt v m).
      destruct (lt v m) eqn:E; auto.
      apply lt_irrefl.
Qed.

Lemma getMax_cons (c0 : Candle) (cs : list Candle) :
  exists m, getMax (c0 :: cs) = Ok m /\
            maximum_of m (map high (c0 :: cs)).
Proof.
  unfold getMax. cbn [index nth_error bind].
  rewrite (fold_left_map (fun max v => if lt max v then v else max) high).
  set (step := fun max v : float64 => if lt max v then v else max).
  eexists. split; [reflexivity|]. split.
  - destruct (fold_select_in step) with (l := map high (c0 :: cs))
      (m0 := high c0) as [E|I]; auto.
    + intros m d. unfold step. destruct (lt m d); auto.
    + rewrite E. now left.
  - intros d Hd.
    apply (fold_select_all step (fun d m => lt m d = false)); auto.
    + intros z m v H. unfold step. destruct (lt m v) eqn:E; auto.
      now apply lt_lt_not_lt with m.
    + intros m v. unfold step. destruct (lt m v) eqn:E; auto.
      apply lt_irrefl.
Qed.

(** The constant [1.3] is the float64 nearest to 13/10: its distance to
    13/10 is under half a unit in the last place. *)
Lemma const_1_3_nearest :
  const_1_3 = S754_finite false 5854679515581645 (-52) /\
  2 * Z.abs (5854679515581645 * 10 - 13 * 2 ^ 52) < 10.
Proof. split; [vm_compute; reflexivity | vm_compute; reflexivity]. Qed.

(** C2 (the code at the failing input): for the empty list of periods
    [NewCandles] returns an empty slice and no error, and
    [NewCandleChart] does not return [EmptyInput] either: it panics. *)
Theorem NewCandles_nil_no_error (gs : draw.GlyphStyle) :
  NewCandles [] = Ok [] /\
  NewCandleChart gs [] <> Err EmptyInput.
Proof. split; [reflexivity | discriminate]. Qed.

(** C9: for the empty list of periods [NewCandles] succeeds with an empty
    slice; [getMin] and [getMax] read element 0 of it, out of range; so
    [NewCandleChart] panics and returns no error. *)
Theorem NewCandleChart_nil_panics (gs : draw.GlyphStyle) :
  NewCandles [] = Ok [] /\
  getMin [] = Panic (IndexOutOfRange 0 0) /\
  getMax [] = Panic (IndexOutOfRange 0 0) /\
  NewCandleChart gs [] = Panic (IndexOutOfRange 0 0) /\
  (forall e, NewCandleChart gs [] <> Err e).
Proof. repeat split; try reflexivity. intros e. discriminate. Qed.

(** [NewCandleChart] on periods of which one is empty returns
    [EmptyInput], before [getMin] is reached. *)
Lemma NewCandleChart_empty_period (gs : draw.GlyphStyle)
    (data : list (list float64)) :
  In [] data -> NewCandleChart gs data = Err EmptyInput.
Proof.
  intros H. unfold NewCandleChart.
  now rewrite (NewCandles_empty_period data H).
Qed.

(** C3: a chart built from a non-empty list of non-empty periods has one
    candle per period, and its [DataRange] is [0], [1.3] times the number
    of candles (the float64 product), a minimum of the candles' lows and
    a maximum of the candles' highs. *)
Theorem DataRange_correct (gs : draw.GlyphStyle)
    (data : list (list float64)) :
  data <> [] -> Forall (fun d => d <> []) data ->
  exists cc m M,
    NewCandleChart gs data = Ok cc /\
    length (candles cc) = length data /\
    DataRange cc =
      (zero, mul (of_int (Z.of_nat (length data))) const_1_3, m, M) /\
    minimum_of m (map low (candles cc)) /\
    maximum_of M (map high (candles cc)).
Proof.
  intros Hne Hall.
  destruct (NewCandles_ok data Hall) as (cs & E & Hlen & _).
  destruct cs as [|c0 cs].
  { destruct data; [congruence | discriminate]. }
  destruct (getMin_cons c0 cs) as (m & Em & Hm).
  destruct (getMax_cons c0 cs) as (M & EM & HM).
  unfold NewCandleChart. rewrite E. cbn [bind]. rewrite Em, EM. cbn [bind].
  eexists. exists m, M. split; [reflexivity|].
  unfold DataRange. cbn [candles Min_ Max_]. rewrite Hlen.
  repeat split; assumption || apply Hm || apply HM.
Qed.

Lemma DataRange_correct_witness :
  exists cc m M,
    NewCandleChart sample_glyph sample_periods = Ok cc /\
    length (candles cc) = length sample_periods /\
    DataRange cc =
      (zero, mul (of_int (Z.of_nat (length sample_periods))) const_1_3,
       m, M) /\
    minimum_of m (map low (candles cc)) /\
    maximum_of M (map high (candles cc)).
Proof.
  apply (DataRange_correct sample_glyph sample_periods).
  - discriminate.
  - repeat constructor; discriminate.
Defined.

(** The data range of the specification's scenario: (0, 2.6, 9, 13). *)
Lemma DataRange_sample (gs : draw.GlyphStyle) :
  exists cc, NewCandleChart gs sample_periods = Ok cc /\
    DataRange cc =
      (zero, of_decimal false 26 (-1), of_int 9, of_int 13).
Proof. eexists. split; [reflexivity | vm_compute; reflexivity]. Qed.

(** ** [Plot] *)

(** C5: with fewer than two candles [Plot] returns the canvas it was
    given: no draw call is recorded and nothing else changes. *)
Theorem Plot_few_candles (cc : CandleChart) (c : draw.Canvas)
    (plt : plot.Plot) :
  (length (candles cc) < 2)%nat ->
  Plot cc c plt = c /\ draw.calls (Plot cc c plt) = draw.calls c.
Proof.
  intros H. unfold Plot.
  apply Nat.ltb_lt in H. rewrite H. split; reflexivity.
Qed.

Lemma Plot_few_candles_witness :
  let cc := {| candles := [zeroCandle];
               GlyphStyle := sample_glyph;
               CandleStyle := {| draw.LineColor := color.Black;
                                 draw.Width := vg.Points (of_int 1);
                                 draw.Dashes := [];
                                 draw.DashOffs := zero |};
               WhiskerStyle := {| draw.LineColor := color.nil;
                                  draw.Width := vg.Points (of_int 1);
                                  draw.Dashes := [];
                                  draw.DashOffs := zero |};
               Min_ := zero; Max_ := zero |} in
  Plot cc open_canvas sample_plot = open_canvas /\
  draw.calls (Plot cc open_canvas sample_plot) = draw.calls open_canvas.
Proof.
  intros cc. apply (Plot_few_candles cc open_canvas sample_plot).
  cbn. lia.
Defined.

(** With two candles or more every candle gets its three draw calls. *)
Lemma Plot_step_fold (cc : CandleChart) (trX trY : float64 -> vg.Length)
    (w : vg.Length) (cs : list Candle) (c : draw.Canvas) :
  length (draw.calls (fold_left (Plot_step cc trX trY w) cs c)) =
  (length (draw.calls c) + 3 * length cs)%nat.
Proof.
  revert c. induction cs as [|candle cs IH]; intros c; cbn [fold_left].
  - cbn. lia.
  - rewrite IH, Plot_step_calls, length_app. cbn [length]. lia.
Qed.

(** C4 (as the code has it): in the scenario [Plot] derives the width
    [trX(1) - trX(0) = 100]; the body of candle 0 is centered at
    [trX(0) = 0] and spans canvas X from [-50] to [50], with its closing
    point at [-50.5]; its Y bounds are [trY(10) = 100] and
    [trY(11) = 90]; it is filled white and is the first draw call. *)
Theorem Plot_sample_body (gs : draw.GlyphStyle) (cv : draw.Canvas) :
  exists rest,
    NewCandleChart gs sample_periods = Ok (sample_chart gs) /\
    sub (sample_trX (of_int 1)) (sample_trX (of_int 0)) = of_int 100 /\
    sample_trX (of_int 0) = zero /\
    sample_trY (of_int 10) = of_int 100 /\
    sample_trY (of_int 11) = of_int 90 /\
    draw.calls (Plot (sample_chart gs) cv sample_plot) =
    draw.calls cv ++
    draw.CallFillPolygon color.White
      (draw.ClipPolygonY cv
         [ pt (of_int (-50)) (of_int 100);
           pt (of_int (-50)) (of_int 90);
           pt (of_int 50) (of_int 90);
           pt (of_int 50) (of_int 100);
           pt (of_decimal true 505 (-1)) (of_int 100) ])
    :: rest.
Proof.
  eexists.
  repeat (split; [vm_compute; reflexivity|]).
  unfold Plot.
  change (length (candles (sample_chart gs)) <? 2)%nat with false.
  cbv iota.
  cbn [plot.Transforms sample_plot candles sample_chart nth fold_left].
  rewrite Plot_step_calls, Plot_step_calls.
  rewrite <- app_assoc. f_equal. cbn [app]. f_equal.
Qed.

(** C4 (the claim at the scenario): no body spans canvas X from 95 to
    105; on the open canvas no polygon that [Plot] fills has a corner at
    X = 95 or at X = 105. *)
Lemma Plot_sample_body_not_95_105 :
  ~ (exists clr pts p,
       In (draw.CallFillPolygon clr pts)
          (draw.calls
             (Plot (sample_chart sample_glyph) open_canvas sample_plot)) /\
       In p pts /\
       (vg.X p = of_int 95 \/ vg.X p = of_int 105)).
Proof.
  intros (clr & pts & p & Hc & Hp & HX).
  vm_compute in Hc.
  repeat (destruct Hc as [Hc|Hc];
          [try discriminate Hc; injection Hc as <- <-|]);
    try contradiction;
    vm_compute in Hp;
    repeat (destruct Hp as [Hp|Hp]; [subst p|]); try contradiction;
    vm_compute in HX; destruct HX as [HX|HX]; discriminate HX.
Qed.

(** ** [transFormat2Unit] *)

(** C8: the six formats map to "sec", "min", "hrs", "day", "mon" and
    "yr" in that order, and every other string maps to the empty
    string. *)
Theorem transFormat2Unit_total :
  map transFormat2Unit formats =
    ["sec"; "min"; "hrs"; "day"; "mon"; "yr"]%string /\
  formats = ["2006-01-02T15:04:05"; "2006-01-02T15:04"; "2006-01-02T15";
             "2006-01-02"; "2006-01"; "2006"]%string /\
  forall f, ~ In f formats -> transFormat2Unit f = ""%string.
Proof.
  split; [reflexivity|]. split; [reflexivity|].
  intros f H. unfold transFormat2Unit.
  repeat match goal with
  | |- context [String.eqb f ?g] =>
      destruct (String.eqb_spec f g) as [->|_];
      [exfalso; apply H; cbn; tauto|]
  end.
  reflexivity.
Qed.

Lemma transFormat2Unit_total_witness :
  transFormat2Unit "2006-W01" = ""%string.
Proof.
  apply (proj2 (proj2 transFormat2Unit_total) "2006-W01"%string).
  cbn. intros H.
  repeat (destruct H as [H|H]; [discriminate H|]). exact H.
Defined.

(** ** Rounding an integer that a float holds exactly *)

Lemma iter_pos_iter {A : Type} (f : A -> A) (n : positive) (x : A) :
  iter_pos f n x = Pos.iter f x n.
Proof.
  revert x. induction n as [n IH|n IH|]; intros x; cbn.
  - rewrite !IH. rewrite <- !Pos.iter_swap. reflexivity.
  - rewrite !IH. reflexivity.
  - reflexivity.
Qed.

Lemma digits2_pos_shift (m k : positive) :
  Zpos (digits2_pos (Pos.iter xO m k)) = Zpos (digits2_pos m) + Zpos k.
Proof.
  induction k as [|k IH] using Pos.peano_ind.
  - cbn. lia.
  - rewrite Pos.iter_succ. cbn [digits2_pos]. lia.
Qed.

Lemma shr_1_shift (m k : positive) :
  iter_pos shr_1 k
    {| shr_m := Zpos (Pos.iter xO m k); shr_r := false; shr_s := false |} =
  {| shr_m := Zpos m; shr_r := false; shr_s := false |}.
Proof.
  rewrite iter_pos_iter.
  induction k as [|k IH] using Pos.peano_ind.
  - reflexivity.
  - rewrite Pos.iter_succ_r, Pos.iter_succ. exact IH.
Qed.

Lemma Npos_shift (m k : positive) :
  Npos (Pos.iter xO m k) = (Npos m * 2 ^ Npos k)%N.
Proof.
  rewrite <- N.shiftl_mul_pow2. reflexivity.
Qed.

(** A canonical mantissa is left as it is by the rounding of
    [binary_round_aux]. *)
Lemma binary_round_aux_canonical (s : bool) (m : positive) (e : Z) :
  bounded prec emax m e = true ->
  binary_round_aux prec emax s (Zpos m) e loc_Exact = S754_finite s m e.
Proof.
  unfold bounded, canonical_mantissa. intros H.
  apply andb_prop in H. destruct H as [Hc He].
  apply Z.eqb_eq in Hc.
  unfold binary_round_aux, shr_fexp. cbn [Zdigits2 shr_record_of_loc].
  rewrite Hc, Z.sub_diag. cbn [shr shr_m loc_of_shr_record round_nearest_even].
  cbn [Zdigits2]. rewrite Hc, Z.sub_diag. cbn [shr shr_m].
  rewrite He. reflexivity.
Qed.

(** The integer [m * 2^e], [e >= 0], rounds to the float [(m, e)]. *)
Lemma binary_round_int_up (s : bool) (m k : positive) :
  bounded prec emax m (Zpos k) = true ->
  binary_round prec emax s (Pos.iter xO m k) 0 = S754_finite s m (Zpos k).
Proof.
  intros H. pose proof H as H'.
  unfold bounded, canonical_mantissa in H'.
  apply andb_prop in H'. destruct H' as [Hc He]. apply Z.eqb_eq in Hc.
  unfold binary_round, shl_align.
  rewrite digits2_pos_shift, Z.add_0_r, Hc. cbn [Z.sub Z.opp Z.add].
  unfold binary_round_aux, shr_fexp. cbn [Zdigits2 shr_record_of_loc].
  rewrite digits2_pos_shift, Z.add_0_r, Hc, Z.sub_0_r.
  cbn [shr]. rewrite shr_1_shift.
  cbn [shr_m loc_of_shr_record round_nearest_even Zdigits2].
  rewrite Z.add_0_l, Hc, Z.sub_diag. cbn [shr shr_m]. rewrite He.
  reflexivity.
Qed.

(** The integer [m / 2^k], where [2^k] divides [m], rounds to the float
    [(m, -k)]. *)
Lemma binary_round_int_down (s : bool) (p k : positive) :
  bounded prec emax (Pos.iter xO p k) (Zneg k) = true ->
  binary_round prec emax s p 0 = S754_finite s (Pos.iter xO p k) (Zneg k).
Proof.
  intros H. pose proof H as H'.
  unfold bounded, canonical_mantissa in H'.
  apply andb_prop in H'. destruct H' as [Hc He]. apply Z.eqb_eq in Hc.
  rewrite digits2_pos_shift in Hc.
  replace (Zpos (digits2_pos p) + Zpos k + Zneg k)
    with (Zpos (digits2_pos p) + 0) in Hc by lia.
  unfold binary_round, shl_align. rewrite Hc. cbn [Z.sub Z.opp Z.add].
  now apply binary_round_aux_canonical.
Qed.

Lemma binary_round_int_zero (s : bool) (m : positive) :
  bounded prec emax m 0 = true ->
  binary_round prec emax s m 0 = S754_finite s m 0.
Proof.
  intros H. pose proof H as H'.
  unfold bounded, canonical_mantissa in H'.
  apply andb_prop in H'. destruct H' as [Hc He]. apply Z.eqb_eq in Hc.
  unfold binary_round, shl_align. rewrite Hc. cbn [Z.sub Z.opp Z.add].
  now apply binary_round_aux_canonical.
Qed.

(** ** Printing and reading back an integral float *)

Lemma round_half_even_exact (n d : N) :
  (n mod d = 0)%N -> d <> 0%N -> strconv.round_half_even n d = (n / d)%N.
Proof.
  intros H Hd. unfold strconv.round_half_even. rewrite H.
  destruct d; [congruence|]. reflexivity.
Qed.

Lemma scaled_integral (s : bool) (m : positive) (e : Z) :
  valid_binary prec emax (S754_finite s m e) = true ->
  integral (S754_finite s m e) = true ->
  exists p, strconv.scaled m e 0 = Npos p /\
            binary_round prec emax s p 0 = S754_finite s m e.
Proof.
  cbn [valid_binary integral]. intros Hv Hi.
  unfold strconv.scaled. cbn [N.of_nat]. rewrite N.pow_0_r, N.mul_1_r.
  destruct e as [|k|k].
  - exists m. split; [apply N.mul_1_r|]. now apply binary_round_int_zero.
  - exists (Pos.iter xO m k). split.
    + cbn [Z.to_N]. now rewrite Npos_shift.
    + now apply binary_round_int_up.
  - apply N.eqb_eq in Hi.
    assert (Hd : (2 ^ Npos k)%N <> 0%N) by (apply N.pow_nonzero; discriminate).
    rewrite round_half_even_exact by assumption.
    pose proof (N.div_mod (Npos m) (2 ^ Npos k) Hd) as E.
    rewrite Hi, N.add_0_r in E.
    destruct (Npos m / 2 ^ Npos k)%N as [|p] eqn:Q.
    { rewrite N.mul_0_r in E. discriminate. }
    rewrite N.mul_comm, <- Npos_shift in E. injection E as E.
    exists p. split; [reflexivity|].
    rewrite E in Hv |- *. now apply binary_round_int_down.
Qed.

Lemma uint_acc_pos (d : Decimal.uint) (acc : positive) :
  uint_acc d (Npos acc) = Npos (Pos.of_uint_acc d acc).
Proof.
  revert acc. induction d; intros acc; cbn [uint_acc Pos.of_uint_acc];
    try reflexivity;
    match goal with
    | |- uint_acc _ ?a = Npos (Pos.of_uint_acc _ ?b) =>
        replace a with (Npos b) by lia
    end; apply IHd.
Qed.

Lemma uint_acc_of_uint (d : Decimal.uint) : uint_acc d 0 = N.of_uint d.
Proof.
  unfold N.of_uint.
  induction d; cbn [uint_acc Pos.of_uint]; try reflexivity;
    try (rewrite <- uint_acc_pos; reflexivity).
  exact IHd.
Qed.

Lemma uint_acc_decimal (n : N) : uint_acc (N.to_uint n) 0 = n.
Proof. rewrite uint_acc_of_uint. apply DecimalN.Unsigned.of_to. Qed.

(** The digit loop of [readFloat] on a string of digits reads all of it
    and accumulates its value. *)
Lemma readDigits_uint (d : Decimal.uint) :
  forall st,
    strconv.sawdot st = false ->
    (strconv.nd st = 0 -> strconv.mantissa st = 0%N) ->
    0 <= strconv.nd st ->
    exists st',
      strconv.readDigits (NilEmpty.string_of_uint d) st
        = Some (st', EmptyString) /\
      strconv.sawdot st' = false /\
      strconv.mantissa st' = uint_acc d (strconv.mantissa st) /\
      (strconv.sawdigits st = true \/ d <> Decimal.Nil ->
       strconv.sawdigits st' = true).
Proof.
  induction d; intros st Hdot Hz Hnd;
    cbn [NilEmpty.string_of_uint strconv.readDigits uint_acc].
  1: { exists st. repeat split; auto. intros [H|H]; congruence. }
  1: { change (Ascii.eqb "0" ".") with false.
       change (strconv.isDigit "0") with true.
       change (Ascii.eqb "0" "0") with true. cbv iota. cbn [andb].
       destruct (strconv.nd st =? 0) eqn:E.
       - apply Z.eqb_eq in E.
         edestruct IHd as (st' & R & D & M & S); [..|exists st'; rewrite R].
         + exact Hdot.
         + cbn. auto.
         + cbn. exact Hnd.
         + cbn in M, S. rewrite (Hz E) in M |- *.
           repeat split; auto.
       - apply Z.eqb_neq in E.
         edestruct IHd as (st' & R & D & M & S); [..|exists st'; rewrite R].
         + exact Hdot.
         + cbn. lia.
         + cbn. lia.
         + cbn in M, S. repeat split; auto. }
  all: match goal with
       | |- context [Ascii.eqb ?c "."] =>
           change (Ascii.eqb c ".") with false;
           change (strconv.isDigit c) with true;
           change (Ascii.eqb c "0") with false
       end; cbv iota; cbn [andb];
       edestruct IHd as (st' & R & D & M & S);
       [..|exists st'; rewrite R; cbn in M, S; repeat split; auto];
       cbn; (exact Hdot || lia).
Qed.

Lemma to_uint_nonnil (n : N) : N.to_uint n <> Decimal.Nil.
Proof.
  destruct n as [|p]; [discriminate|]. apply DecimalPos.Unsigned.to_uint_nonnil.
Qed.

(** A string of digits is none of the special names, signed or not. *)
Lemma special_digits (d : Decimal.uint) (neg : bool) :
  d <> Decimal.Nil ->
  strconv.special (strconv.sign neg ++ NilEmpty.string_of_uint d) = None.
Proof.
  intros H. destruct d; [congruence|..]; destruct neg; reflexivity.
Qed.

Lemma readFloat_digits (d : Decimal.uint) (neg : bool) :
  d <> Decimal.Nil ->
  strconv.readFloat (strconv.sign neg ++ NilEmpty.string_of_uint d)
  = Some (uint_acc d 0, 0, neg).
Proof.
  intros H.
  destruct (readDigits_uint d strconv.scan0) as (st' & R & D & M & S);
    try reflexivity; try (cbn; lia).
  assert (F : forall str,
             strconv.readDigits str strconv.scan0 = Some (st', EmptyString) ->
             match strconv.readDigits str strconv.scan0 with
             | None => None
             | Some (st, rest) =>
                 if negb (strconv.sawdigits st) then None
                 else
                   let dp0 := if strconv.sawdot st then strconv.dp st
                              else strconv.nd st in
                   match rest with
                   | EmptyString =>
                       Some (strconv.mantissa st, dp0 - strconv.nd st, neg)
                   | String c1 r1 =>
                       if Ascii.eqb c1 "e" || Ascii.eqb c1 "E" then
                         match r1 with
                         | EmptyString => None
                         | String c2 r2 =>
                             let '(esign, r3) :=
                               if Ascii.eqb c2 "+" then (1, r2)
                               else if Ascii.eqb c2 "-" then (-1, r2)
                               else (1, r1) in
                             if strconv.startsWithDigit r3 then
                               let '(e, r4) := strconv.readExp r3 0 in
                               match r4 with
                               | EmptyString =>
                                   Some (strconv.mantissa st,
                                         dp0 + e * esign - strconv.nd st,
                                         neg)
                               | _ => None
                               end
                             else None
                         end
                       else None
                   end
             end = Some (uint_acc d 0, 0, neg)).
  { intros str E. rewrite E, S by auto. cbn [negb]. cbv zeta.
    rewrite D, Z.sub_diag, M. reflexivity. }
  destruct neg.
  - cbn [strconv.sign append]. exact (F _ R).
  - destruct d; [congruence|..]; exact (F _ R).
Qed.

(** [ParseFloat] reads the decimal digits of [n], with or without a
    minus sign, as the float nearest to [n]. *)
Lemma ParseFloat_decimal (neg : bool) (n : N) :
  IsInf (of_decimal neg n 0) 0 = false ->
  strconv.ParseFloat (strconv.sign neg ++ strconv.decimal n)
  = (of_decimal neg n 0, None).
Proof.
  intros H. unfold strconv.ParseFloat, strconv.decimal.
  rewrite special_digits by apply to_uint_nonnil.
  rewrite readFloat_digits by apply to_uint_nonnil.
  rewrite uint_acc_decimal, H. reflexivity.
Qed.

Lemma relabel_fst (l : string) :
  relabel l = strconv.FormatFloat_f (fst (strconv.ParseFloat l)) 0.
Proof. unfold relabel. destruct (strconv.ParseFloat l). reflexivity. Qed.

(** The label printed for an integral float reads back as that float. *)
Lemma ParseFloat_FormatFloat_integral (f : float64) :
  valid_binary prec emax f = true -> integral f = true ->
  strconv.ParseFloat (strconv.FormatFloat_f f 0) = (f, None).
Proof.
  intros Hv Hi. destruct f as [s|s| |s m e]; try discriminate.
  - exact (ParseFloat_decimal s 0 eq_refl).
  - destruct (scaled_integral s m e Hv Hi) as (p & Hp & Hr).
    cbn [strconv.FormatFloat_f strconv.fixed]. rewrite Hp.
    rewrite ParseFloat_decimal; cbn [of_decimal]; rewrite Hr; reflexivity.
Qed.

Lemma relabel_integral (l : string) :
  valid_binary prec emax (fst (strconv.ParseFloat l)) = true ->
  integral (fst (strconv.ParseFloat l)) = true ->
  relabel (relabel l) = relabel l.
Proof.
  intros Hv Hi. rewrite (relabel_fst l).
  rewrite (relabel_fst (strconv.FormatFloat_f _ 0)).
  now rewrite ParseFloat_FormatFloat_integral.
Qed.

(** ** [Ticks] *)

Lemma nth_middle_app {A : Type} (pre post : list A) (a d : A) :
  nth (length pre) (pre ++ a :: post) d = a.
Proof. induction pre as [|b pre IH]; cbn; auto. Qed.

Lemma Ticks_loop_spec (post : list plot.Tick) :
  forall pre,
    Ticks_loop (length post) (length pre) (pre ++ post) =
    pre ++ map retick post.
Proof.
  induction post as [|t post IH]; intros pre; [reflexivity|].
  cbn [length Ticks_loop map]. rewrite nth_middle_app.
  replace (S (length pre)) with (length (pre ++ [t]))
    by (rewrite length_app; cbn; lia).
  destruct (String.eqb (plot.Label t) "") eqn:E.
  - assert (R : retick t = t) by (unfold retick; now rewrite E).
    change (pre ++ t :: post) with (pre ++ [t] ++ post).
    rewrite app_assoc, IH, <- app_assoc, R. reflexivity.
  - assert (R : retick t = set_Label t (relabel (plot.Label t)))
      by (unfold retick; now rewrite E).
    rewrite store_app, <- R.
    replace (length (pre ++ [t])) with (length (pre ++ [retick t]))
      by (rewrite !length_app; reflexivity).
    change (pre ++ retick t :: post) with (pre ++ [retick t] ++ post).
    rewrite app_assoc, IH, <- app_assoc. reflexivity.
Qed.

Lemma Ticks_map (DefaultTicks : float64 -> float64 -> list plot.Tick)
    (r : rawTicks) (min max : float64) :
  Ticks DefaultTicks r min max = map retick (DefaultTicks min max).
Proof.
  unfold Ticks. exact (Ticks_loop_spec (DefaultTicks min max) []).
Qed.

(** A syntax error of [ParseFloat] comes with the value 0. *)
Lemma ParseFloat_syntax_zero (l : string) (e : strconv.NumError) :
  snd (strconv.ParseFloat l) = Some e ->
  strconv.Err_ e = strconv.ErrSyntax ->
  fst (strconv.ParseFloat l) = zero.
Proof.
  unfold strconv.ParseFloat.
  destruct (strconv.special l); [discriminate|].
  destruct (strconv.readFloat l) as [[[m ex] neg]|]; [|reflexivity].
  destruct (IsInf (of_decimal neg m ex) 0); [|discriminate].
  cbn. intros [= <-]. discriminate.
Qed.

(** ** Integers below 2^53 are floats *)

Lemma digits2_pos_size (p : positive) : digits2_pos p = Pos.size p.
Proof. induction p; cbn; congruence. Qed.

Lemma digits2_pos_small (p : positive) :
  (Npos p < 2 ^ 53)%N -> Zpos (digits2_pos p) <= 53.
Proof.
  intros H. rewrite digits2_pos_size.
  destruct (Z.le_gt_cases (Zpos (Pos.size p)) 53) as [L|G]; [exact L|].
  exfalso.
  pose proof (Pos.size_le p) as S.
  apply Pos2Z.pos_le_pos in S. rewrite Pos2Z.inj_pow in S.
  assert (P : 2 ^ 54 <= 2 ^ Zpos (Pos.size p))
    by (apply Z.pow_le_mono_r; lia).
  apply N2Z.inj_lt in H. rewrite N2Z.inj_pow in H.
  change (Z.of_N (Npos p)) with (Zpos p) in H.
  change (Z.of_N 2 ^ Z.of_N 53) with 9007199254740992 in H.
  change (2 ^ 54) with 18014398509481984 in P.
  lia.
Qed.

Lemma int_is_float (neg : bool) (p : positive) :
  (Npos p < 2 ^ 53)%N ->
  exists m e,
    of_decimal neg (Npos p) 0 = S754_finite neg m e /\
    valid_binary prec emax (S754_finite neg m e) = true /\
    integral (S754_finite neg m e) = true /\
    strconv.scaled m e 0 = Npos p.
Proof.
  intros H. apply digits2_pos_small in H.
  destruct (Z.eq_dec (Zpos (digits2_pos p)) 53) as [E|E].
  - assert (B : bounded prec emax p 0 = true).
    { unfold bounded, canonical_mantissa, fexp, emin, prec, emax.
      rewrite E. reflexivity. }
    exists p, 0. repeat split.
    + now apply binary_round_int_zero.
    + exact B.
    + unfold strconv.scaled. cbn [N.of_nat Z.to_N].
      now rewrite !N.pow_0_r, !N.mul_1_r.
  - set (k := Z.to_pos (53 - Zpos (digits2_pos p))).
    assert (K : Zpos k = 53 - Zpos (digits2_pos p)) by (unfold k; lia).
    assert (B : bounded prec emax (Pos.iter xO p k) (Zneg k) = true).
    { unfold bounded, canonical_mantissa, fexp, emin, prec, emax.
      rewrite digits2_pos_shift.
      apply andb_true_intro. split; [apply Z.eqb_eq | apply Z.leb_le]; lia. }
    assert (D : (2 ^ Npos k)%N <> 0%N) by (apply N.pow_nonzero; discriminate).
    exists (Pos.iter xO p k), (Zneg k). repeat split.
    + now apply binary_round_int_down.
    + exact B.
    + cbn [integral]. rewrite Npos_shift, N.Div0.mod_mul. reflexivity.
    + unfold strconv.scaled. cbn [N.of_nat].
      rewrite N.pow_0_r, N.mul_1_r, Npos_shift.
      rewrite round_half_even_exact.
      * now apply N.div_mul.
      * apply N.Div0.mod_mul.
      * exact D.
Qed.

(** The decimal numeral of an integer of magnitude below 2^53 is a label
    that [relabel] leaves as it is. *)
Lemma relabel_decimal (neg : bool) (n : N) :
  (n < 2 ^ 53)%N ->
  relabel (strconv.sign neg ++ strconv.decimal n) =
  (strconv.sign neg ++ strconv.decimal n)%string.
Proof.
  intros H. rewrite relabel_fst. destruct n as [|p].
  - rewrite ParseFloat_decimal by reflexivity. reflexivity.
  - destruct (int_is_float neg p H) as (m & e & E & V & I & S).
    rewrite ParseFloat_decimal by (rewrite E; reflexivity).
    rewrite E. cbn [fst strconv.FormatFloat_f strconv.fixed].
    now rewrite S.
Qed.

(** C7: [Ticks] returns the default ticks with each one rewritten by
    [retick]: a tick whose label is empty is unchanged; a tick with a
    non-empty label keeps its value and gets its label parsed as a
    float and formatted with zero decimals, so that "3.0" becomes "3".
    The rewrite leaves the numeral of an integer below 2^53 as it is,
    and is idempotent on every label whose value is an integral
    float. *)
Theorem Ticks_rewrites_labels
    (DefaultTicks : float64 -> float64 -> list plot.Tick)
    (r : rawTicks) (min max : float64) :
  Ticks DefaultTicks r min max = map retick (DefaultTicks min max) /\
  (forall t, plot.Label t = ""%string -> retick t = t) /\
  (forall t, plot.Label t <> ""%string ->
     retick t =
     {| plot.Value := plot.Value t;
        plot.Label :=
          strconv.FormatFloat_f (fst (strconv.ParseFloat (plot.Label t))) 0
     |}) /\
  relabel "3.0" = "3"%string /\
  (forall neg n, (n < 2 ^ 53)%N ->
     relabel (strconv.sign neg ++ strconv.decimal n) =
     (strconv.sign neg ++ strconv.decimal n)%string) /\
  (forall l,
     valid_binary prec emax (fst (strconv.ParseFloat l)) = true ->
     integral (fst (strconv.ParseFloat l)) = true ->
     relabel (relabel l) = relabel l).
Proof.
  split; [apply Ticks_map|].
  split.
  { intros t H. unfold retick. rewrite H. reflexivity. }
  split.
  { intros t H. unfold retick.
    destruct (String.eqb_spec (plot.Label t) ""); [contradiction|].
    unfold set_Label. now rewrite relabel_fst. }
  split; [vm_compute; reflexivity|].
  split; [exact relabel_decimal | exact relabel_integral].
Qed.

Lemma Ticks_rewrites_labels_witness :
  relabel (relabel "3.0") = relabel "3.0" /\
  relabel "-12" = "-12"%string /\
  retick {| plot.Value := of_int 3; plot.Label := "3.0" |} =
    {| plot.Value := of_int 3; plot.Label := "3" |} /\
  retick zeroTick = zeroTick.
Proof.
  pose proof (Ticks_rewrites_labels (fun _ _ => []) rawTicks_ zero zero)
    as (_ & Hempty & Hlabel & _ & Hdec & Hidem).
  split; [|split; [|split]].
  - apply (Hidem "3.0"%string); vm_compute; reflexivity.
  - apply (Hdec true 12%N). vm_compute. reflexivity.
  - apply (Hlabel {| plot.Value := of_int 3; plot.Label := "3.0" |}).
    discriminate.
  - apply (Hempty zeroTick). reflexivity.
Defined.

(** C10: a tick whose non-empty label [ParseFloat] rejects as not a
    number comes out of [Ticks] with the label "0": the error is
    dropped and the zero that came with it is formatted. *)
Theorem Ticks_unparsable_label
    (DefaultTicks : float64 -> float64 -> list plot.Tick)
    (r : rawTicks) (min max : float64) (i : nat) (t : plot.Tick)
    (e : strconv.NumError) :
  nth_error (DefaultTicks min max) i = Some t ->
  plot.Label t <> ""%string ->
  snd (strconv.ParseFloat (plot.Label t)) = Some e ->
  strconv.Err_ e = strconv.ErrSyntax ->
  nth_error (Ticks DefaultTicks r min max) i =
  Some {| plot.Value := plot.Value t; plot.Label := "0" |}.
Proof.
  intros Hi Hl He Hs. rewrite Ticks_map, nth_error_map, Hi. cbn [option_map].
  f_equal. unfold retick.
  destruct (String.eqb_spec (plot.Label t) ""); [contradiction|].
  unfold set_Label. rewrite relabel_fst.
  rewrite (ParseFloat_syntax_zero _ e He Hs). reflexivity.
Qed.

Lemma Ticks_unparsable_label_witness :
  nth_error
    (Ticks (fun _ _ => [ {| plot.Value := of_int 1; plot.Label := "one" |} ])
           rawTicks_ zero (of_int 2)) 0 =
  Some {| plot.Value := of_int 1; plot.Label := "0" |}.
Proof.
  apply (Ticks_unparsable_label
           (fun _ _ => [ {| plot.Value := of_int 1; plot.Label := "one" |} ])
           rawTicks_ zero (of_int 2) 0
           {| plot.Value := of_int 1; plot.Label := "one" |}
           (strconv.syntaxError strconv.fnParseFloat "one")).
  - reflexivity.
  - discriminate.
  - reflexivity.
  - reflexivity.
Defined.

(** * Further properties of the package *)

(** ** Order lemmas *)

Lemma le_not_nan (x y : float64) :
  le x y = true -> IsNaN x = false /\ IsNaN y = false.
Proof.
  destruct x as [sx|sx| |sx mx ex], y as [sy|sy| |sy my ey];
    try discriminate; auto.
Qed.

Lemma le_trans (x y z : float64) :
  le x y = true -> le y z = true -> le x z = true.
Proof.
  intros Hxy Hyz.
  destruct (le_not_nan _ _ Hxy) as [Hx Hy].
  destruct (le_not_nan _ _ Hyz) as [_ Hz].
  apply le_key in Hxy; auto. apply le_key in Hyz; auto.
  apply le_key; auto. revert Hxy Hyz. unfold lex_lt.
  destruct (key x) as [[a1 a2] a3], (key y) as [[b1 b2] b3],
           (key z) as [[c1 c2] c3]. lia.
Qed.

Lemma Min_idem (d : float64) : Min d d = d.
Proof.
  destruct d as [[|]|[|]| |[|] m e]; try reflexivity.
  all: unfold Min; cbn [IsInf IsNaN orb];
    match goal with
    | |- context [eq ?a zero] => change (eq a zero) with false
    end; cbn [andb]; now rewrite lt_irrefl.
Qed.

Lemma Max_idem (d : float64) : Max d d = d.
Proof.
  destruct d as [[|]|[|]| |[|] m e]; try reflexivity.
  all: unfold Max; cbn [IsInf IsNaN orb];
    match goal with
    | |- context [eq ?a zero] => change (eq a zero) with false
    end; cbn [andb];
    match goal with
    | |- context [gt ?a ?b] => change (gt a b) with (lt b a)
    end; now rewrite lt_irrefl.
Qed.

(** X2: a period of one sample [d] gives the flat white candle at [d]:
    all of start, end, low and high are [d], whatever float [d] is. *)
Theorem NewCandle_single (x d : float64) :
  NewCandle x [d] =
  Ok {| X := x; start := d; end_ := d; low := d; high := d;
        Color := color.White |}.
Proof.
  rewrite NewCandle_cons. cbn [last fold_left].
  rewrite !Min_idem, !Max_idem. change (gt d d) with (lt d d).
  rewrite lt_irrefl. reflexivity.
Qed.

(** ** NaN samples *)

Lemma Min_nan_l (d : float64) : d <> Inf (-1) -> Min NaN d = NaN.
Proof.
  destruct d as [s|[|]| |s m e]; intros H; try reflexivity. now elim H.
Qed.

Lemma Min_nan_r (a : float64) : a <> Inf (-1) -> Min a NaN = NaN.
Proof.
  destruct a as [s|[|]| |s m e]; intros H; try reflexivity. now elim H.
Qed.

Lemma Max_nan_l (d : float64) : d <> Inf 1 -> Max NaN d = NaN.
Proof.
  destruct d as [s|[|]| |s m e]; intros H; try reflexivity. now elim H.
Qed.

Lemma Max_nan_r (a : float64) : a <> Inf 1 -> Max a NaN = NaN.
Proof.
  destruct a as [s|[|]| |s m e]; intros H; try reflexivity. now elim H.
Qed.

(** A fold whose step turns a NaN on either side into NaN, unless the
    absorbing value [top] is met, ends in NaN once a NaN is met. *)
Section NaNFold.

Variable step : float64 -> float64 -> float64.
Variable top : float64.

Hypothesis step_cases : forall m d, step m d = m \/ step m d = d.
Hypothesis step_nan_l : forall d, d <> top -> step NaN d = NaN.
Hypothesis step_nan_r : forall a, a <> top -> step a NaN = NaN.

Lemma fold_from_nan (l : list float64) :
  ~ In top l -> fold_left step l NaN = NaN.
Proof.
  induction l as [|d l IH]; intros H; cbn; [reflexivity|].
  rewrite step_nan_l by (intros ->; apply H; now left).
  apply IH. intros I. apply H. now right.
Qed.

Lemma fold_meets_nan (l : list float64) (acc : float64) :
  In NaN l -> ~ In top l -> acc <> top -> fold_left step l acc = NaN.
Proof.
  revert acc. induction l as [|d l IH]; intros acc Hn Ht Ha; [contradiction|].
  cbn [fold_left].
  assert (Hd : d <> top) by (intros ->; apply Ht; now left).
  assert (Hl : ~ In top l) by (intros I; apply Ht; now right).
  destruct Hn as [-> | Hn].
  - rewrite step_nan_r by assumption. now apply fold_from_nan.
  - apply IH; auto. destruct (step_cases acc d) as [-> | ->]; assumption.
Qed.

End NaNFold.

(** X3: one NaN among the samples makes the candle's low NaN unless a
    sample is -Inf, and its high NaN unless a sample is +Inf. *)
Theorem NewCandle_nan (x : float64) (data : list float64) (c : Candle) :
  NewCandle x data = Ok c -> In NaN data ->
  (~ In (Inf (-1)) data -> low c = NaN) /\
  (~ In (Inf 1) data -> high c = NaN).
Proof.
  intros H Hn. destruct data as [|d0 l]; [discriminate|].
  rewrite NewCandle_cons in H. injection H as <-. cbn [low high].
  split; intros Ht.
  - apply (fold_meets_nan Min (Inf (-1)) Min_cases Min_nan_l Min_nan_r
             (d0 :: l) d0);
      [exact Hn | exact Ht | intros E; apply Ht; rewrite <- E; now left].
  - apply (fold_meets_nan Max (Inf 1) Max_cases Max_nan_l Max_nan_r
             (d0 :: l) d0);
      [exact Hn | exact Ht | intros E; apply Ht; rewrite <- E; now left].
Qed.

Lemma NewCandle_nan_witness :
  let c := {| X := zero; start := of_int 1; end_ := of_int 2;
              low := NaN; high := NaN; Color := color.White |} in
  low c = NaN /\ high c = NaN.
Proof.
  intros c.
  destruct (NewCandle_nan zero [of_int 1; NaN; of_int 2] c) as [L H].
  - reflexivity.
  - cbn. auto.
  - split; [apply L | apply H]; cbn; intros I;
      repeat (destruct I as [I|I]; [discriminate I|]); exact I.
Defined.

Lemma NewCandle_invariant_witness :
  le (low sample_candle0) (start sample_candle0) = true /\
  le (low sample_candle0) (end_ sample_candle0) = true /\
  le (start sample_candle0) (high sample_candle0) = true /\
  le (end_ sample_candle0) (high sample_candle0) = true.
Proof.
  apply (NewCandle_invariant (of_int 0)
           [of_int 10; of_int 12; of_int 9; of_int 11]).
  - reflexivity.
  - intros d H. cbn in H.
    repeat (destruct H as [<-|H]; [reflexivity|]). contradiction.
Defined.

(** ** Results of [NewCandles], [getMin], [getMax] and [NewCandleChart] *)

(** X5: [NewCandles] never panics; it succeeds, with one candle per
    period, exactly when every period has a sample, and otherwise
    returns [EmptyInput]. *)
Theorem NewCandles_result (data : list (list float64)) :
  match NewCandles data with
  | Ok cs => Forall (fun d => d <> []) data /\ length cs = length data
  | Err e => e = EmptyInput /\ In [] data
  | Panic _ => False
  end.
Proof.
  pose proof (candles_from_result data 0) as R.
  rewrite NewCandles_candles_from.
  destruct (candles_from 0 data) as [cs|e|p] eqn:E; auto.
  split; [exact R|].
  destruct (candles_from_ok data 0 R) as (cs' & E' & L & _).
  congruence.
Qed.

(** X6: in the slice [NewCandles] returns, candle [k] sits at position
    [float64(k)] and is the candle [NewCandle] builds from period [k]. *)
Theorem NewCandles_positions (data : list (list float64))
    (cs : list Candle) (k : nat) (c : Candle) :
  NewCandles data = Ok cs -> nth_error cs k = Some c ->
  X c = of_int (Z.of_nat k) /\
  exists d, nth_error data k = Some d /\
            NewCandle (of_int (Z.of_nat k)) d = Ok c.
Proof.
  intros H Hk.
  pose proof (candles_from_result data 0) as R.
  rewrite NewCandles_candles_from in H. rewrite H in R.
  destruct (candles_from_ok data 0 R) as (cs' & E & L & P).
  assert (cs' = cs) by congruence. subst cs'.
  assert (Hlt : (k < length data)%nat).
  { rewrite <- L. apply nth_error_Some. congruence. }
  destruct (nth_error data k) as [d|] eqn:Hd;
    [|apply nth_error_None in Hd; lia].
  destruct (P k d Hd) as (c' & Hc' & HN). cbn [Nat.add] in HN.
  assert (c' = c) by congruence. subst c'.
  split; [|exists d; split; [reflexivity | exact HN]].
  destruct d as [|d0 l]; [discriminate|].
  rewrite NewCandle_cons in HN. injection HN as <-. reflexivity.
Qed.

Lemma NewCandles_positions_witness :
  X sample_candle1 = of_int (Z.of_nat 1) /\
  exists d, nth_error sample_periods 1 = Some d /\
            NewCandle (of_int (Z.of_nat 1)) d = Ok sample_candle1.
Proof.
  apply (NewCandles_positions sample_periods
           [sample_candle0; sample_candle1] 1 sample_candle1);
    reflexivity.
Defined.

(** X7: [getMin] and [getMax] panic exactly on the empty slice and never
    return an error; on a non-empty slice [getMin] returns a minimum of
    the lows and [getMax] a maximum of the highs. *)
Theorem getMin_getMax_result (cs : list Candle) :
  match getMin cs with
  | Ok m => cs <> [] /\ minimum_of m (map low cs)
  | Err _ => False
  | Panic p => cs = [] /\ p = IndexOutOfRange 0 0
  end /\
  match getMax cs with
  | Ok m => cs <> [] /\ maximum_of m (map high cs)
  | Err _ => False
  | Panic p => cs = [] /\ p = IndexOutOfRange 0 0
  end.
Proof.
  destruct cs as [|c0 cs].
  - split; split; reflexivity.
  - destruct (getMin_cons c0 cs) as (m & -> & Hm).
    destruct (getMax_cons c0 cs) as (M & -> & HM).
    repeat split; try discriminate; apply Hm || apply HM.
Qed.

(** X9: [NewCandleChart] has three outcomes: a chart with one candle per
    period when there is at least one period and every period has a
    sample; [EmptyInput] when some period has none; an index-out-of-range
    panic when there is no period at all. *)
Theorem NewCandleChart_result (gs : draw.GlyphStyle)
    (data : list (list float64)) :
  match NewCandleChart gs data with
  | Ok cc =>
      data <> [] /\ Forall (fun d => d <> []) data /\
      NewCandles data = Ok (candles cc) /\
      getMin (candles cc) = Ok (Min_ cc) /\
      getMax (candles cc) = Ok (Max_ cc)
  | Err e => e = EmptyInput /\ In [] data
  | Panic p => data = [] /\ p = IndexOutOfRange 0 0
  end.
Proof.
  unfold NewCandleChart.
  pose proof (candles_from_result data 0) as R.
  rewrite NewCandles_candles_from.
  destruct (candles_from 0 data) as [cs|e|p] eqn:E; cbn [bind]; auto;
    [|contradiction].
  destruct (candles_from_ok data 0 R) as (cs' & E' & L & _).
  assert (cs' = cs) by congruence. subst cs'.
  destruct cs as [|c0 cs].
  - cbn. destruct data; [auto | discriminate].
  - destruct (getMin_cons c0 cs) as (m & Em & _).
    destruct (getMax_cons c0 cs) as (M & EM & _).
    rewrite Em, EM. cbn [bind candles Min_ Max_].
    repeat split; auto. intros ->. discriminate.
Qed.

(** ** The chart's range and the samples *)

Lemma candles_from_Forall2 (data : list (list float64)) :
  forall i cs, candles_from i data = Ok cs ->
    Forall2 (fun p c => exists x, NewCandle x p = Ok c) data cs.
Proof.
  induction data as [|p data IH]; intros i cs H; cbn [candles_from] in H.
  - injection H as <-. constructor.
  - destruct (NewCandle (of_int (Z.of_nat i)) p) as [c|e|q] eqn:E;
      cbn [bind] in H; try discriminate.
    destruct (candles_from (S i) data) as [cs'|e|q] eqn:E';
      cbn [bind] in H; try discriminate.
    injection H as <-. constructor; eauto.
Qed.

Lemma Forall2_pick_l {A B : Type} {R : A -> B -> Prop} {l : list A}
    {l' : list B} {a : A} :
  Forall2 R l l' -> In a l -> exists b, In b l' /\ R a b.
Proof.
  induction 1 as [|a' b' l l' Hab _ IH]; intros I; [contradiction|].
  destruct I as [-> | I].
  - exists b'. split; [now left | assumption].
  - destruct (IH I) as (b & Hb & Rb). exists b. split; [now right | assumption].
Qed.

Lemma Forall2_pick_r {A B : Type} {R : A -> B -> Prop} {l : list A}
    {l' : list B} {b : B} :
  Forall2 R l l' -> In b l' -> exists a, In a l /\ R a b.
Proof.
  induction 1 as [|a' b' l l' Hab _ IH]; intros I; [contradiction|].
  destruct I as [-> | I].
  - exists a'. split; [now left | assumption].
  - destruct (IH I) as (a & Ha & Ra). exists a. split; [now right | assumption].
Qed.

(** The low and high of a candle are samples of its period and bracket
    every sample of it, when none is a NaN. *)
Lemma NewCandle_brackets (x : float64) (p : list float64) (c : Candle) :
  NewCandle x p = Ok c -> (forall d, In d p -> IsNaN d = false) ->
  In (low c) p /\ In (high c) p /\
  forall d, In d p -> le (low c) d = true /\ le d (high c) = true.
Proof.
  intros H Hnan. destruct p as [|d0 l]; [discriminate|].
  rewrite NewCandle_cons in H. injection H as <-. cbn [low high].
  pose proof (fold_Min_minimum d0 l) as Hmin.
  pose proof (fold_Max_maximum d0 l) as Hmax.
  split; [apply Hmin|]. split; [apply Hmax|]. intros d Hd. split.
  - now apply (minimum_of_le _ (d0 :: l)).
  - now apply (maximum_of_le _ (d0 :: l)).
Qed.

(** X10: when no sample is a NaN, the [Min] and [Max] of a chart built by
    [NewCandleChart] enclose every sample of every period, and
    [Min <= Max]. *)
Theorem chart_range_encloses (gs : draw.GlyphStyle)
    (data : list (list float64)) (cc : CandleChart) :
  NewCandleChart gs data = Ok cc ->
  (forall p d, In p data -> In d p -> IsNaN d = false) ->
  (forall p d, In p data -> In d p ->
     le (Min_ cc) d = true /\ le d (Max_ cc) = true) /\
  le (Min_ cc) (Max_ cc) = true.
Proof.
  intros H Hnan. unfold NewCandleChart in H.
  rewrite NewCandles_candles_from in H.
  destruct (candles_from 0 data) as [cs|e|q] eqn:E; cbn [bind] in H;
    try discriminate.
  destruct cs as [|c0 cs]; [discriminate|].
  destruct (getMin_cons c0 cs) as (m & Em & Hm).
  destruct (getMax_cons c0 cs) as (M & EM & HM).
  rewrite Em, EM in H. cbn [bind] in H. injection H as <-.
  cbn [Min_ Max_].
  pose proof (candles_from_Forall2 data 0 _ E) as F.
  assert (Hlow : forall v, In v (map low (c0 :: cs)) -> IsNaN v = false).
  { intros v Hv. apply in_map_iff in Hv. destruct Hv as (c & <- & Hc).
    destruct (Forall2_pick_r F Hc) as (p & Hp & x & Hx).
    destruct (NewCandle_brackets x p _ Hx (fun d => Hnan p d Hp)) as (I & _).
    exact (Hnan p _ Hp I). }
  assert (Hhigh : forall v, In v (map high (c0 :: cs)) -> IsNaN v = false).
  { intros v Hv. apply in_map_iff in Hv. destruct Hv as (c & <- & Hc).
    destruct (Forall2_pick_r F Hc) as (p & Hp & x & Hx).
    destruct (NewCandle_brackets x p _ Hx (fun d => Hnan p d Hp))
      as (_ & I & _).
    exact (Hnan p _ Hp I). }
  assert (Enc : forall p d, In p data -> In d p ->
            le m d = true /\ le d M = true).
  { intros p d Hp Hd.
    destruct (Forall2_pick_l F Hp) as (c & Hc & x & Hx).
    destruct (NewCandle_brackets x p _ Hx (fun d => Hnan p d Hp))
      as (_ & _ & B).
    destruct (B d Hd) as [B1 B2]. split.
    - apply le_trans with (low c); [|exact B1].
      apply (minimum_of_le m (map low (c0 :: cs))); auto.
      now apply in_map.
    - apply le_trans with (high c); [exact B2|].
      apply (maximum_of_le M (map high (c0 :: cs))); auto.
      now apply in_map. }
  split; [exact Enc|].
  inversion F as [|p0 c0' data' cs' (x & Hx) _ Ed]; subst.
  destruct p0 as [|d0 l]; [discriminate|].
  destruct (Enc (d0 :: l) d0) as [A B]; [now left | now left |].
  now apply le_trans with d0.
Qed.

Lemma chart_range_encloses_witness :
  (forall p d, In p sample_periods -> In d p ->
     le (of_int 9) d = true /\ le d (of_int 13) = true) /\
  le (of_int 9) (of_int 13) = true.
Proof.
  apply (chart_range_encloses sample_glyph sample_periods
           (sample_chart sample_glyph)).
  - reflexivity.
  - intros p d Hp Hd. cbn in Hp.
    repeat (destruct Hp as [<-|Hp];
            [cbn in Hd;
             repeat (destruct Hd as [<-|Hd]; [reflexivity|]);
             contradiction|]).
    contradiction.
Defined.

(** ** NaN lows and highs in [getMin] and [getMax] *)

Lemma IsNaN_true (v : float64) : IsNaN v = true -> v = NaN.
Proof. destruct v; try discriminate. reflexivity. Qed.

Lemma getMin_fold_filter (cs : list Candle) (acc : float64) :
  fold_left (fun min c => if gt min (low c) then low c else min) cs acc =
  fold_left (fun min c => if gt min (low c) then low c else min)
            (filter (fun c => negb (IsNaN (low c))) cs) acc.
Proof.
  revert acc. induction cs as [|c cs IH]; intros acc; [reflexivity|].
  cbn [fold_left filter]. destruct (IsNaN (low c)) eqn:E; cbn [negb].
  - apply IsNaN_true in E. rewrite E.
    change (gt acc NaN) with (lt NaN acc). rewrite lt_nan_l. apply IH.
  - cbn [fold_left]. apply IH.
Qed.

Lemma getMax_fold_filter (cs : list Candle) (acc : float64) :
  fold_left (fun max c => if lt max (high c) then high c else max) cs acc =
  fold_left (fun max c => if lt max (high c) then high c else max)
            (filter (fun c => negb (IsNaN (high c))) cs) acc.
Proof.
  revert acc. induction cs as [|c cs IH]; intros acc; [reflexivity|].
  cbn [fold_left filter]. destruct (IsNaN (high c)) eqn:E; cbn [negb].
  - apply IsNaN_true in E. rewrite E, lt_nan_r. apply IH.
  - cbn [fold_left]. apply IH.
Qed.

Lemma getMin_fold_nan (cs : list Candle) :
  fold_left (fun min c => if gt min (low c) then low c else min) cs NaN
  = NaN.
Proof.
  induction cs as [|c cs IH]; [reflexivity|]. cbn [fold_left].
  change (gt NaN (low c)) with (lt (low c) NaN). now rewrite lt_nan_r.
Qed.

Lemma getMax_fold_nan (cs : list Candle) :
  fold_left (fun max c => if lt max (high c) then high c else max) cs NaN
  = NaN.
Proof.
  induction cs as [|c cs IH]; [reflexivity|]. cbn [fold_left].
  now rewrite lt_nan_l.
Qed.

(** X8: [getMin] and [getMax] treat NaN by position: a NaN low (high) in
    the first candle makes the result NaN, and a NaN low (high) in any
    later candle is skipped as if the candle were not there. *)
Theorem getMin_getMax_nan (c0 : Candle) (cs : list Candle) :
  (IsNaN (low c0) = true -> getMin (c0 :: cs) = Ok NaN) /\
  (IsNaN (high c0) = true -> getMax (c0 :: cs) = Ok NaN) /\
  getMin (c0 :: cs) =
    getMin (c0 :: filter (fun c => negb (IsNaN (low c))) cs) /\
  getMax (c0 :: cs) =
    getMax (c0 :: filter (fun c => negb (IsNaN (high c))) cs).
Proof.
  unfold getMin, getMax. cbn [index nth_error bind fold_left].
  repeat split.
  - intros H. apply IsNaN_true in H. rewrite H.
    change (gt NaN NaN) with false. cbv iota. now rewrite getMin_fold_nan.
  - intros H. apply IsNaN_true in H. rewrite H.
    change (lt NaN NaN) with false. cbv iota. now rewrite getMax_fold_nan.
  - now rewrite getMin_fold_filter.
  - now rewrite getMax_fold_filter.
Qed.

Lemma getMin_getMax_nan_witness :
  getMin [set_low zeroCandle NaN; sample_candle0] = Ok NaN /\
  getMax [set_high zeroCandle NaN; sample_candle0] = Ok NaN.
Proof.
  split.
  - apply (proj1 (getMin_getMax_nan (set_low zeroCandle NaN)
                    [sample_candle0])). reflexivity.
  - apply (proj1 (proj2 (getMin_getMax_nan (set_high zeroCandle NaN)
                           [sample_candle0]))). reflexivity.
Defined.

(** ** The draw calls of [Plot] *)

Lemma Plot_step_frame (cc : CandleChart) (trX trY : float64 -> vg.Length)
    (w : vg.Length) (c : draw.Canvas) (candle : Candle) :
  draw.ClipPolygonY (Plot_step cc trX trY w c candle) = draw.ClipPolygonY c /\
  draw.ClipLinesY (Plot_step cc trX trY w c candle) = draw.ClipLinesY c /\
  draw.calls (Plot_step cc trX trY w c candle) =
  draw.calls c ++ candle_calls cc trX trY w c candle.
Proof.
  split; [|split].
  - unfold Plot_step. destruct (lt (start candle) (end_ candle)); reflexivity.
  - unfold Plot_step. destruct (lt (start candle) (end_ candle)); reflexivity.
  - apply Plot_step_calls.
Qed.

Lemma candle_calls_clip (cc : CandleChart) (trX trY : float64 -> vg.Length)
    (w : vg.Length) (c c' : draw.Canvas) (candle : Candle) :
  draw.ClipPolygonY c' = draw.ClipPolygonY c ->
  draw.ClipLinesY c' = draw.ClipLinesY c ->
  candle_calls cc trX trY w c' candle = candle_calls cc trX trY w c candle.
Proof. intros P L. unfold candle_calls. now rewrite P, L. Qed.

Lemma Plot_fold_frame (cc : CandleChart) (trX trY : float64 -> vg.Length)
    (w : vg.Length) (c : draw.Canvas) (cs : list Candle) :
  forall c',
    draw.ClipPolygonY c' = draw.ClipPolygonY c ->
    draw.ClipLinesY c' = draw.ClipLinesY c ->
    let r := fold_left (Plot_step cc trX trY w) cs c' in
    draw.ClipPolygonY r = draw.ClipPolygonY c /\
    draw.ClipLinesY r = draw.ClipLinesY c /\
    draw.calls r =
    draw.calls c' ++ flat_map (candle_calls cc trX trY w c) cs.
Proof.
  induction cs as [|candle cs IH]; intros c' P L; cbn [fold_left flat_map].
  - rewrite app_nil_r. auto.
  - destruct (Plot_step_frame cc trX trY w c' candle) as (P' & L' & C').
    destruct (IH (Plot_step cc trX trY w c' candle)) as (P2 & L2 & C2).
    + congruence.
    + congruence.
    + repeat split; auto. rewrite C2, C', <- app_assoc.
      now rewrite (candle_calls_clip cc trX trY w c c' candle P L).
Qed.

Lemma length_flat_map_3 (cc : CandleChart) (trX trY : float64 -> vg.Length)
    (w : vg.Length) (c : draw.Canvas) (cs : list Candle) :
  length (flat_map (candle_calls cc trX trY w c) cs) = (3 * length cs)%nat.
Proof.
  induction cs as [|candle cs IH]; [reflexivity|].
  cbn [flat_map]. rewrite length_app, IH. cbn [candle_calls length]. lia.
Qed.

(** X11: with two candles or more, [Plot] appends to the canvas, for each
    candle in slice order, the fill of its body, the stroke of its body
    outline and the stroke of its whiskers; every body has the one width
    [trX(candles[1].X) - trX(candles[0].X)]. *)
Theorem Plot_draws_each_candle (cc : CandleChart) (c : draw.Canvas)
    (plt : plot.Plot) (c0 c1 : Candle) (rest : list Candle)
    (trX trY : float64 -> vg.Length) :
  candles cc = c0 :: c1 :: rest ->
  plot.Transforms plt c = (trX, trY) ->
  draw.calls (Plot cc c plt) =
  draw.calls c ++
  flat_map (candle_calls cc trX trY (sub (trX (X c1)) (trX (X c0))) c)
           (candles cc).
Proof.
  intros Hc Ht. unfold Plot. rewrite Hc, Ht. cbn [length Nat.ltb Nat.leb nth].
  apply (Plot_fold_frame cc trX trY _ c (c0 :: c1 :: rest) c); reflexivity.
Qed.

Lemma Plot_draws_each_candle_witness :
  draw.calls (Plot (sample_chart sample_glyph) open_canvas sample_plot) =
  draw.calls open_canvas ++
  flat_map (candle_calls (sample_chart sample_glyph) sample_trX sample_trY
              (sub (sample_trX (X sample_candle1))
                   (sample_trX (X sample_candle0))) open_canvas)
           (candles (sample_chart sample_glyph)).
Proof.
  apply (Plot_draws_each_candle (sample_chart sample_glyph) open_canvas
           sample_plot sample_candle0 sample_candle1 []); reflexivity.
Defined.

(** X12: [Plot] only appends: the calls already on the canvas stay a
    prefix, the clipping of the canvas is unchanged, and the number of
    calls added is three per candle, or none below two candles. *)
Theorem Plot_only_appends (cc : CandleChart) (c : draw.Canvas)
    (plt : plot.Plot) :
  draw.ClipPolygonY (Plot cc c plt) = draw.ClipPolygonY c /\
  draw.ClipLinesY (Plot cc c plt) = draw.ClipLinesY c /\
  exists new,
    draw.calls (Plot cc c plt) = draw.calls c ++ new /\
    length new =
      if (length (candles cc) <? 2)%nat then 0%nat
      else (3 * length (candles cc))%nat.
Proof.
  unfold Plot. destruct (length (candles cc) <? 2)%nat.
  - repeat split. exists []. now rewrite app_nil_r.
  - destruct (plot.Transforms plt c) as [trX trY].
    destruct (Plot_fold_frame cc trX trY
                (sub (trX (X (nth 1 (candles cc) zeroCandle)))
                     (trX (X (nth 0 (candles cc) zeroCandle))))
                c (candles cc) c eq_refl eq_refl) as (P & L & C).
    repeat split; auto. eexists. split; [exact C|].
    apply length_flat_map_3.
Qed.

(** X13: the geometry [Plot] draws for a candle does not depend on which
    of two different end samples came first: exchanging the first and
    last sample of a candle, its color kept, gives the same draw
    calls. *)
Theorem Plot_step_swap_ends (cc : CandleChart)
    (trX trY : float64 -> vg.Length) (w : vg.Length) (c : draw.Canvas)
    (candle : Candle) :
  lt (start candle) (end_ candle) = true \/
  lt (end_ candle) (start candle) = true ->
  Plot_step cc trX trY w c (swap_ends candle) =
  Plot_step cc trX trY w c candle.
Proof.
  intros H. unfold Plot_step, swap_ends. cbn [X start end_ low high Color].
  destruct H as [H|H].
  - rewrite H.
    rewrite (lt_not_lt_trans (end_ candle) (end_ candle) (start candle)
               (lt_irrefl _) H).
    reflexivity.
  - rewrite H.
    rewrite (lt_not_lt_trans (start candle) (start candle) (end_ candle)
               (lt_irrefl _) H).
    reflexivity.
Qed.

Lemma Plot_step_swap_ends_witness :
  Plot_step (sample_chart sample_glyph) sample_trX sample_trY (of_int 100)
    open_canvas (swap_ends sample_candle0) =
  Plot_step (sample_chart sample_glyph) sample_trX sample_trY (of_int 100)
    open_canvas sample_candle0.
Proof.
  apply (Plot_step_swap_ends (sample_chart sample_glyph) sample_trX
           sample_trY (of_int 100) open_canvas sample_candle0).
  left. reflexivity.
Defined.

(** X14: a chart built by [NewCandleChart] from two periods or more is
    drawn with bodies of width [trX(1) - trX(0)]: its first two candles
    sit at positions 0 and 1. *)
Theorem Plot_built_chart_width (gs : draw.GlyphStyle)
    (data : list (list float64)) (cc : CandleChart) (c : draw.Canvas)
    (plt : plot.Plot) (trX trY : float64 -> vg.Length) :
  NewCandleChart gs data = Ok cc ->
  (2 <= length data)%nat ->
  plot.Transforms plt c = (trX, trY) ->
  draw.calls (Plot cc c plt) =
  draw.calls c ++
  flat_map (candle_calls cc trX trY
              (sub (trX (of_int 1)) (trX (of_int 0))) c)
           (candles cc).
Proof.
  intros H Hlen Ht. unfold NewCandleChart in H.
  rewrite NewCandles_candles_from in H.
  pose proof (candles_from_result data 0) as R.
  destruct (candles_from 0 data) as [cs|e|q] eqn:E; cbn [bind] in H;
    try discriminate.
  destruct (candles_from_ok data 0 R) as (cs' & E' & L & P).
  assert (cs' = cs) by congruence. subst cs'.
  destruct (getMin cs) as [m|e|q]; cbn [bind] in H; try discriminate.
  destruct (getMax cs) as [M|e|q]; cbn [bind] in H; try discriminate.
  injection H as <-.
  destruct data as [|p0 [|p1 data]]; cbn [length] in Hlen; try lia.
  destruct (P 0%nat p0 eq_refl) as (c0 & H0 & N0).
  destruct (P 1%nat p1 eq_refl) as (c1 & H1 & N1).
  destruct cs as [|c0' [|c1' rest]]; try discriminate.
  cbn in H0, H1. injection H0 as ->. injection H1 as ->.
  assert (X0 : X c0 = of_int 0).
  { destruct p0; [discriminate|]. cbn [Nat.add Z.of_nat] in N0.
    rewrite NewCandle_cons in N0. now injection N0 as <-. }
  assert (X1 : X c1 = of_int 1).
  { destruct p1; [discriminate|]. cbn [Nat.add] in N1.
    rewrite NewCandle_cons in N1. now injection N1 as <-. }
  unfold Plot. cbn [candles length Nat.ltb Nat.leb nth]. rewrite Ht.
  rewrite X0, X1.
  apply (Plot_fold_frame _ trX trY _ c (c0 :: c1 :: rest) c); reflexivity.
Qed.

Lemma Plot_built_chart_width_witness :
  draw.calls (Plot (sample_chart sample_glyph) open_canvas sample_plot) =
  draw.calls open_canvas ++
  flat_map (candle_calls (sample_chart sample_glyph) sample_trX sample_trY
              (sub (sample_trX (of_int 1)) (sample_trX (of_int 0)))
              open_canvas)
           (candles (sample_chart sample_glyph)).
Proof.
  apply (Plot_built_chart_width sample_glyph sample_periods
           (sample_chart sample_glyph) open_canvas sample_plot).
  - reflexivity.
  - cbn. lia.
  - reflexivity.
Defined.

(** ** The labels [Ticks] writes *)

Lemma string_of_uint_digits (d : Decimal.uint) :
  all_digits (NilEmpty.string_of_uint d) = true.
Proof.
  unfold all_digits.
  induction d; cbn [NilEmpty.string_of_uint list_ascii_of_string forallb];
    try reflexivity; rewrite IHd; reflexivity.
Qed.

Lemma decimal_nonempty (n : N) : strconv.decimal n <> ""%string.
Proof.
  unfold strconv.decimal. pose proof (to_uint_nonnil n) as H.
  destruct (N.to_uint n); try discriminate. congruence.
Qed.

Lemma FormatFloat_f_0_shape (f : float64) :
  integer_label (strconv.FormatFloat_f f 0).
Proof.
  destruct f as [s|[|]| |s m e]; cbn [strconv.FormatFloat_f strconv.fixed].
  - right. exists s, (strconv.decimal 0).
    split; [reflexivity|].
    split; [apply decimal_nonempty | apply string_of_uint_digits].
  - left. cbn. auto.
  - left. cbn. auto.
  - left. cbn. auto.
  - right. exists s, (strconv.decimal (strconv.scaled m e 0)).
    split; [reflexivity|].
    split; [apply decimal_nonempty | apply string_of_uint_digits].
Qed.

Lemma integer_label_nonempty (l : string) :
  integer_label l -> l <> ""%string.
Proof.
  intros [H|(neg & digits & -> & Hne & _)].
  - cbn in H. intros ->. intuition discriminate.
  - destruct neg; [discriminate|]. exact Hne.
Qed.

(** X15: every label [Ticks] rewrites comes out as an optional minus sign
    followed by decimal digits only, or as NaN, +Inf or -Inf: no
    decimal point, no exponent, and never the empty label. *)
Theorem retick_integer_label (t : plot.Tick) :
  plot.Label t <> ""%string ->
  integer_label (plot.Label (retick t)) /\
  plot.Label (retick t) <> ""%string /\
  plot.Value (retick t) = plot.Value t.
Proof.
  intros H. unfold retick.
  destruct (String.eqb_spec (plot.Label t) ""); [contradiction|].
  cbn [set_Label plot.Label plot.Value]. rewrite relabel_fst.
  pose proof (FormatFloat_f_0_shape (fst (strconv.ParseFloat (plot.Label t))))
    as S.
  repeat split; [exact S | now apply integer_label_nonempty].
Qed.

Lemma retick_integer_label_witness :
  let t := {| plot.Value := of_decimal false 25 (-1);
              plot.Label := "2.5" |} in
  integer_label (plot.Label (retick t)) /\
  plot.Label (retick t) <> ""%string /\
  plot.Value (retick t) = plot.Value t.
Proof.
  intros t. apply (retick_integer_label t). discriminate.
Defined.

(** X16: [Ticks] returns as many ticks as the default generator, at the
    same values in the same order, and keeps apart the ticks with a
    label from those without. *)
Theorem Ticks_keeps_ticks
    (DefaultTicks : float64 -> float64 -> list plot.Tick)
    (r : rawTicks) (min max : float64) :
  length (Ticks DefaultTicks r min max) = length (DefaultTicks min max) /\
  map plot.Value (Ticks DefaultTicks r min max) =
    map plot.Value (DefaultTicks min max) /\
  map (fun t => String.eqb (plot.Label t) "") (Ticks DefaultTicks r min max)
  = map (fun t => String.eqb (plot.Label t) "") (DefaultTicks min max).
Proof.
  rewrite Ticks_map. split; [apply length_map|].
  rewrite !map_map. split; apply map_ext; intros t; unfold retick.
  - destruct (String.eqb (plot.Label t) ""); reflexivity.
  - destruct (String.eqb_spec (plot.Label t) "") as [E|E].
    + now rewrite E.
    + cbn [set_Label plot.Label]. apply String.eqb_neq.
      rewrite relabel_fst. apply integer_label_nonempty.
      apply FormatFloat_f_0_shape.
Qed.

(** ** The helpers of [myutil] *)

Lemma index_middle {A : Type} (pre post : list A) (a : A) :
  index (pre ++ a :: post) (length pre) = Ok a.
Proof.
  unfold index. rewrite nth_error_app2 by lia.
  now rewrite Nat.sub_diag.
Qed.

Lemma snoc_assoc {A : Type} (pre : list A) (a : A) (post : list A) :
  pre ++ a :: post = (pre ++ [a]) ++ post.
Proof. now rewrite <- app_assoc. Qed.

Lemma length_snoc {A : Type} (pre : list A) (a : A) :
  length (pre ++ [a]) = S (length pre).
Proof. rewrite length_app. cbn. lia. Qed.

Lemma pair_loop_spec (x y : list float64) (xs : list float64) :
  forall (px py ys : list float64) (dpre dpost : plotter.XYs),
    x = px ++ xs -> y = py ++ ys ->
    length py = length px -> length dpre = length px ->
    length ys = length xs -> length dpost = length xs ->
    myutil.pair_loop (length xs) (length px) x y (dpre ++ dpost) =
    Ok (dpre ++
        map (fun xy => {| plotter.X := fst xy; plotter.Y := snd xy |})
            (combine xs ys)).
Proof.
  induction xs as [|xi xs IH]; intros px py ys dpre dpost Hx Hy Lp Ld Ly Lz.
  - destruct dpost; [|discriminate]. destruct ys; [|discriminate].
    reflexivity.
  - destruct ys as [|yi ys]; [discriminate|].
    destruct dpost as [|z dpost]; [discriminate|].
    cbn [length myutil.pair_loop combine map].
    rewrite Hx at 1. rewrite index_middle. cbn [bind].
    rewrite Hy at 1. rewrite <- Lp, index_middle. cbn [bind].
    rewrite Lp, <- Ld, store_app, Ld.
    rewrite (snoc_assoc dpre), <- (length_snoc px xi).
    rewrite (snoc_assoc dpre _ (map _ _)).
    apply (IH (px ++ [xi]) (py ++ [yi]) ys).
    + now rewrite <- snoc_assoc.
    + now rewrite <- snoc_assoc.
    + rewrite !length_snoc. congruence.
    + rewrite !length_snoc. congruence.
    + cbn in Ly. lia.
    + cbn in Lz. lia.
Qed.

Lemma single_loop_spec (x : list float64) (xs : list float64) :
  forall (px : list float64) (dpre dpost : plotter.XYs),
    x = px ++ xs -> length dpre = length px -> length dpost = length xs ->
    myutil.single_loop (length xs) (length px) x (dpre ++ dpost) =
    Ok (dpre ++
        map (fun ix => {| plotter.X := of_int (Z.of_nat (fst ix));
                          plotter.Y := snd ix |})
            (combine (seq (length px) (length xs)) xs)).
Proof.
  induction xs as [|xi xs IH]; intros px dpre dpost Hx Ld Lz.
  - destruct dpost; [|discriminate]. reflexivity.
  - destruct dpost as [|z dpost]; [discriminate|].
    cbn [length myutil.single_loop seq combine map fst snd].
    rewrite Hx at 1. rewrite index_middle. cbn [bind].
    rewrite <- Ld, store_app, Ld.
    rewrite (snoc_assoc dpre), <- (length_snoc px xi).
    rewrite (snoc_assoc dpre _ (map _ _)).
    apply (IH (px ++ [xi])).
    + now rewrite <- snoc_assoc.
    + rewrite !length_snoc. congruence.
    + cbn in Lz. lia.
Qed.

(** The data the loops build: point [i] is [(x[i], y[i])], or
    [(float64(i), x[i])] when there is one slice only. *)
Lemma pair_data_spec (x y : list float64) :
  length x = length y ->
  myutil.pair_data x y =
  Ok (map (fun xy => {| plotter.X := fst xy; plotter.Y := snd xy |})
          (combine x y)).
Proof.
  intros L. unfold myutil.pair_data, myutil.make_XYs.
  apply (pair_loop_spec x y x [] [] y [] (repeat myutil.zeroXY (length x)));
    auto. apply repeat_length.
Qed.

Lemma single_data_spec (x : list float64) :
  myutil.single_data x =
  Ok (map (fun ix => {| plotter.X := of_int (Z.of_nat (fst ix));
                        plotter.Y := snd ix |})
          (combine (seq 0 (length x)) x)).
Proof.
  unfold myutil.single_data, myutil.make_XYs.
  apply (single_loop_spec x x [] [] (repeat myutil.zeroXY (length x)));
    auto. apply repeat_length.
Qed.

Lemma save_size :
  mul (of_int 10) myutil.Inch = of_int 720 /\
  mul (of_int 6) myutil.Inch = of_int 432.
Proof. split; vm_compute; reflexivity. Qed.

Lemma save_and_open_calm (w : myutil.world) (h : list myutil.call) :
  (forall h c, w h c = None) ->
  myutil.save_and_open w h = (h ++ saved_and_opened, myutil.Return).
Proof.
  intros Hw. unfold myutil.save_and_open, myutil.try_, myutil.done.
  rewrite !Hw. destruct save_size as [-> ->].
  now rewrite <- app_assoc.
Qed.

(** X17: [MyPlot], [MyScatter] and [MyPlotWithScatter] called with slices
    of different lengths leave through [log.Fatal] before any call on
    the plotting library: nothing is built, saved or opened. *)
Theorem myutil_length_mismatch (w : myutil.world) (x y : list float64) :
  length x <> length y ->
  myutil.MyPlot w x y = ([], myutil.Fatal myutil.fatal_length) /\
  myutil.MyScatter w x y = ([], myutil.Fatal myutil.fatal_length) /\
  myutil.MyPlotWithScatter w x y = ([], myutil.Fatal myutil.fatal_length).
Proof.
  intros H. apply Nat.eqb_neq in H.
  unfold myutil.MyPlot, myutil.MyScatter, myutil.MyPlotWithScatter.
  rewrite H. repeat split.
Qed.

Lemma myutil_length_mismatch_witness :
  myutil.MyPlot calm [of_int 1; of_int 2] [of_int 3]
    = ([], myutil.Fatal myutil.fatal_length) /\
  myutil.MyScatter calm [of_int 1; of_int 2] [of_int 3]
    = ([], myutil.Fatal myutil.fatal_length) /\
  myutil.MyPlotWithScatter calm [of_int 1; of_int 2] [of_int 3]
    = ([], myutil.Fatal myutil.fatal_length).
Proof.
  apply (myutil_length_mismatch calm [of_int 1; of_int 2] [of_int 3]).
  discriminate.
Defined.

(** X18: when no library call fails, [MySinglePlot] draws the line through
    the points [(float64(i), x[i])] and [MyPlot], given slices of one
    length, the line through the points [(x[i], y[i])]; each then saves
    a 720 by 432 point image [img.png] and opens it. *)
Theorem myutil_line_runs (w : myutil.world) (x y : list float64) :
  (forall h c, w h c = None) ->
  myutil.MySinglePlot w x =
    ([ myutil.plot_New; myutil.plotter_NewLine (single_points x);
       myutil.Plot_Add (myutil.Line (single_points x)) ]
     ++ saved_and_opened, myutil.Return) /\
  (length x = length y ->
   myutil.MyPlot w x y =
     ([ myutil.plot_New; myutil.plotter_NewLine (pair_points x y);
        myutil.Plot_Add (myutil.Line (pair_points x y)) ]
      ++ saved_and_opened, myutil.Return)).
Proof.
  intros Hw. split.
  - unfold myutil.MySinglePlot. rewrite single_data_spec.
    unfold myutil.with_data, myutil.try_, myutil.do_. rewrite !Hw.
    now rewrite save_and_open_calm.
  - intros L. unfold myutil.MyPlot. rewrite pair_data_spec by exact L.
    apply Nat.eqb_eq in L. rewrite L. cbn [negb].
    unfold myutil.with_data, myutil.try_, myutil.do_. rewrite !Hw.
    now rewrite save_and_open_calm.
Qed.

Lemma myutil_line_runs_witness :
  myutil.MySinglePlot calm [of_int 5; of_int 7] =
    ([ myutil.plot_New;
       myutil.plotter_NewLine (single_points [of_int 5; of_int 7]);
       myutil.Plot_Add (myutil.Line (single_points [of_int 5; of_int 7])) ]
     ++ saved_and_opened, myutil.Return) /\
  myutil.MyPlot calm [of_int 5; of_int 7] [of_int 1; of_int 2] =
    ([ myutil.plot_New;
       myutil.plotter_NewLine
         (pair_points [of_int 5; of_int 7] [of_int 1; of_int 2]);
       myutil.Plot_Add
         (myutil.Line
            (pair_points [of_int 5; of_int 7] [of_int 1; of_int 2])) ]
     ++ saved_and_opened, myutil.Return).
Proof.
  destruct (myutil_line_runs calm [of_int 5; of_int 7]
              [of_int 1; of_int 2]) as [S P]; [reflexivity|].
  split; [exact S | apply P; reflexivity].
Defined.

(** X19: when no library call fails, [MySingleScatter] adds the scatter
    of the points [(float64(i), x[i])] with radius 1, [MyScatter] the
    scatter of the points [(x[i], y[i])] with radius 2, and
    [MyPlotWithScatter] that scatter and then the line through the same
    points; each then saves and opens [img.png]. *)
Theorem myutil_scatter_runs (w : myutil.world) (x y : list float64) :
  (forall h c, w h c = None) ->
  myutil.MySingleScatter w x =
    ([ myutil.plot_New; myutil.plotter_NewScatter (single_points x);
       myutil.Plot_Add (myutil.Scatter (single_points x) (of_int 1)) ]
     ++ saved_and_opened, myutil.Return) /\
  (length x = length y ->
   myutil.MyScatter w x y =
     ([ myutil.plot_New; myutil.plotter_NewScatter (pair_points x y);
        myutil.Plot_Add (myutil.Scatter (pair_points x y) (of_int 2)) ]
      ++ saved_and_opened, myutil.Return) /\
   myutil.MyPlotWithScatter w x y =
     ([ myutil.plot_New; myutil.plotter_NewScatter (pair_points x y);
        myutil.Plot_Add (myutil.Scatter (pair_points x y) (of_int 2));
        myutil.plotter_NewLine (pair_points x y);
        myutil.Plot_Add (myutil.Line (pair_points x y)) ]
      ++ saved_and_opened, myutil.Return)).
Proof.
  intros Hw. split.
  - unfold myutil.MySingleScatter. rewrite single_data_spec.
    unfold myutil.with_data, myutil.try_, myutil.do_. rewrite !Hw.
    now rewrite save_and_open_calm.
  - intros L.
    unfold myutil.MyScatter, myutil.MyPlotWithScatter.
    rewrite pair_data_spec by exact L.
    apply Nat.eqb_eq in L. rewrite L. cbn [negb].
    unfold myutil.with_data, myutil.try_, myutil.do_. rewrite !Hw.
    now rewrite !save_and_open_calm.
Qed.

Lemma myutil_scatter_runs_witness :
  myutil.MySingleScatter calm [of_int 5] =
    ([ myutil.plot_New; myutil.plotter_NewScatter (single_points [of_int 5]);
       myutil.Plot_Add
         (myutil.Scatter (single_points [of_int 5]) (of_int 1)) ]
     ++ saved_and_opened, myutil.Return) /\
  myutil.MyScatter calm [of_int 5] [of_int 1] =
    ([ myutil.plot_New;
       myutil.plotter_NewScatter (pair_points [of_int 5] [of_int 1]);
       myutil.Plot_Add
         (myutil.Scatter (pair_points [of_int 5] [of_int 1]) (of_int 2)) ]
     ++ saved_and_opened, myutil.Return).
Proof.
  destruct (myutil_scatter_runs calm [of_int 5] [of_int 1])
    as [S P]; [reflexivity|].
  split; [exact S | apply P; reflexivity].
Defined.

(** ** The viewer and the saved image *)

Lemma no_Run_snoc (h : list myutil.call) (c : myutil.call) :
  no_Run h -> (forall name args, c <> myutil.exec_Command_Run name args) ->
  no_Run (h ++ [c]).
Proof.
  intros H Hc name args I. apply in_app_or in I. destruct I as [I|[I|[]]].
  - exact (H name args I).
  - exact (Hc name args I).
Qed.

Lemma no_Run_opens (w : myutil.world) (h : list myutil.call)
    (e : myutil.exit) :
  no_Run h -> opens_after_save w (h, e).
Proof.
  intros H pre name args post E. cbn [fst] in E. exfalso.
  apply (H name args). rewrite E. apply in_elt.
Qed.

Lemma last_Run_only (g : list myutil.call) (n0 : string)
    (a0 : list string) :
  no_Run g ->
  forall pre name args post,
    g ++ [myutil.exec_Command_Run n0 a0] =
    pre ++ myutil.exec_Command_Run name args :: post ->
    post = [] /\ pre = g /\ name = n0 /\ args = a0.
Proof.
  intros H pre name args post E.
  destruct post as [|c post].
  - apply app_inj_tail in E. destruct E as [-> E].
    injection E as -> ->. auto.
  - exfalso.
    destruct (exists_last (l := c :: post)) as (post' & z & Ez);
      [discriminate|].
    rewrite Ez, app_comm_cons, app_assoc in E. apply app_inj_tail in E.
    destruct E as [E _]. apply (H name args). rewrite E. apply in_elt.
Qed.

Lemma save_and_open_opens (w : myutil.world) :
  opens_well w (myutil.save_and_open w).
Proof.
  intros h H. unfold myutil.save_and_open, myutil.try_, myutil.done.
  set (sv := myutil.Plot_Save _ _ _).
  set (run := myutil.exec_Command_Run _ _).
  destruct (w h sv) eqn:Es.
  { apply no_Run_opens, no_Run_snoc; [exact H | discriminate]. }
  assert (N : no_Run (h ++ [sv]))
    by (apply no_Run_snoc; [exact H | discriminate]).
  assert (G : forall e, opens_after_save w ((h ++ [sv]) ++ [run], e)).
  { intros e pre name args post E. cbn [fst] in E.
    destruct (last_Run_only _ _ _ N _ _ _ _ E) as (-> & -> & -> & ->).
    repeat split. exists h. eexists. eexists.
    split; [reflexivity | exact Es]. }
  destruct (w (h ++ [sv]) run); apply G.
Qed.

Lemma try_opens (w : myutil.world) (c : myutil.call) (k : myutil.script) :
  (forall name args, c <> myutil.exec_Command_Run name args) ->
  opens_well w k -> opens_well w (myutil.try_ w c k).
Proof.
  intros Hc Hk h H. unfold myutil.try_.
  destruct (w h c).
  - apply no_Run_opens, no_Run_snoc; assumption.
  - apply Hk, no_Run_snoc; assumption.
Qed.

Lemma do_opens (w : myutil.world) (c : myutil.call) (k : myutil.script) :
  (forall name args, c <> myutil.exec_Command_Run name args) ->
  opens_well w k -> opens_well w (myutil.do_ c k).
Proof.
  intros Hc Hk h H. unfold myutil.do_. apply Hk, no_Run_snoc; assumption.
Qed.

Lemma with_data_opens (w : myutil.world) (r : result plotter.XYs)
    (k : plotter.XYs -> myutil.script) :
  (forall data, opens_well w (k data)) ->
  opens_well w (myutil.with_data r k).
Proof.
  intros Hk h H. destruct r; cbn [myutil.with_data].
  - now apply Hk.
  - now apply no_Run_opens.
  - now apply no_Run_opens.
Qed.

Lemma no_Run_nil : no_Run [].
Proof. intros name args []. Qed.

Ltac opens_chain :=
  repeat first
    [ apply save_and_open_opens
    | apply try_opens; [discriminate|]
    | apply do_opens; [discriminate|]
    | apply with_data_opens; intros ?data ].

(** X20: in every run of every helper, whatever fails, the viewer is
    started at most once, as the last call, on [img.png], and only right
    after a [Save] of [img.png] that returned no error. *)
Theorem myutil_opens_after_save (w : myutil.world)
    (gs : draw.GlyphStyle) (x y : list float64) (ts : list string)
    (data : list (list float64)) (bu : BarUnit) :
  opens_after_save w (myutil.MySinglePlot w x) /\
  opens_after_save w (myutil.MyPlot w x y) /\
  opens_after_save w (myutil.MySingleScatter w x) /\
  opens_after_save w (myutil.MyScatter w x y) /\
  opens_after_save w (myutil.MyPlotWithScatter w x y) /\
  opens_after_save w (myutil.MyCandleChart w gs ts data bu).
Proof.
  assert (C : opens_well w (fun h =>
    myutil.try_ w myutil.plot_New
      (fun h =>
         match NewCandleChart gs data with
         | Err e => (h, myutil.PanicErr e)
         | Panic p => (h, myutil.PanicRuntime p)
         | Ok cc =>
             myutil.do_ (myutil.Plot_Add (myutil.Chart cc))
               (myutil.do_ (myutil.Plot_set (myutil.Title_Text "Candle Chart"))
               (myutil.do_ (myutil.Plot_set (myutil.X_Label_Text "Time"))
               (myutil.do_
                  (myutil.Plot_set
                     (myutil.X_Label_Text (myutil.time_label bu)))
               (myutil.do_
                  (myutil.Plot_set
                     (myutil.Y_Label_Text ("Price [" ++ "yen" ++ "]")))
               (myutil.do_ (myutil.Plot_set myutil.Y_Tick_Marker_RawTicks)
               (myutil.do_ (myutil.Plot_NominalX ts)
               (myutil.do_
                  (myutil.Plot_set (myutil.X_Min (of_decimal true 5 (-1))))
               (myutil.do_
                  (myutil.Plot_set
                     (myutil.X_Max
                        (mul (of_int (Z.of_nat (length data)))
                             (of_decimal false 11 (-1)))))
               (myutil.save_and_open w))))))))) h
         end) h)).
  { apply (try_opens w myutil.plot_New); [discriminate|].
    intros h H. destruct (NewCandleChart gs data) as [cc|e|q];
      try (now apply no_Run_opens).
    revert h H. opens_chain. }
  unfold myutil.MySinglePlot, myutil.MyPlot, myutil.MySingleScatter,
    myutil.MyScatter, myutil.MyPlotWithScatter, myutil.MyCandleChart.
  destruct (negb (length x =? length y)%nat);
    (split; [|split; [|split; [|split; [|split]]]]);
    try (apply no_Run_opens, no_Run_nil);
    try (apply (C [] no_Run_nil));
    match goal with
    | |- opens_after_save w (?k []) =>
        apply (fun G : opens_well w k => G [] no_Run_nil)
    end; opens_chain.
Qed.

(** ** [MyCandleChart] *)

(** X21: with a library that does not fail, [MyCandleChart] creates the
    plot and then panics with [EmptyInput] if a period has no sample,
    panics in the runtime if there is no period, and in neither case
    adds, saves or opens anything; otherwise it returns after adding the
    chart of [NewCandleChart], setting the axes and saving and opening
    the image. *)
Theorem MyCandleChart_outcome (w : myutil.world) (gs : draw.GlyphStyle)
    (ts : list string) (data : list (list float64)) (bu : BarUnit) :
  (forall h c, w h c = None) ->
  (In [] data ->
   myutil.MyCandleChart w gs ts data bu =
     ([myutil.plot_New], myutil.PanicErr EmptyInput)) /\
  (data = [] ->
   myutil.MyCandleChart w gs ts data bu =
     ([myutil.plot_New], myutil.PanicRuntime (IndexOutOfRange 0 0))) /\
  (data <> [] -> Forall (fun d => d <> []) data ->
   exists cc,
     NewCandleChart gs data = Ok cc /\
     myutil.MyCandleChart w gs ts data bu =
       ([ myutil.plot_New;
          myutil.Plot_Add (myutil.Chart cc);
          myutil.Plot_set (myutil.Title_Text "Candle Chart");
          myutil.Plot_set (myutil.X_Label_Text "Time");
          myutil.Plot_set (myutil.X_Label_Text (myutil.time_label bu));
          myutil.Plot_set (myutil.Y_Label_Text "Price [yen]");
          myutil.Plot_set myutil.Y_Tick_Marker_RawTicks;
          myutil.Plot_NominalX ts;
          myutil.Plot_set (myutil.X_Min (of_decimal true 5 (-1)));
          myutil.Plot_set
            (myutil.X_Max (mul (of_int (Z.of_nat (length data)))
                               (of_decimal false 11 (-1)))) ]
        ++ saved_and_opened, myutil.Return)).
Proof.
  intros Hw. unfold myutil.MyCandleChart, myutil.try_. rewrite Hw.
  cbn [app]. split; [|split].
  - intros H. unfold NewCandleChart.
    now rewrite (NewCandles_empty_period data H).
  - intros ->. reflexivity.
  - intros Hne Hall.
    destruct (NewCandles_ok data Hall) as (cs & E & L & _).
    destruct cs as [|c0 cs]; [destruct data; [congruence|discriminate]|].
    destruct (getMin_cons c0 cs) as (m & Em & _).
    destruct (getMax_cons c0 cs) as (M & EM & _).
    unfold NewCandleChart. rewrite E. cbn [bind]. rewrite Em, EM.
    cbn [bind]. eexists. split; [reflexivity|].
    unfold myutil.do_. rewrite save_and_open_calm by exact Hw.
    reflexivity.
Qed.

Lemma MyCandleChart_outcome_witness :
  myutil.MyCandleChart calm sample_glyph ["a"; "b"]%string
    [[of_int 1]; []] {| T := 5; Unit := FormatMinute |} =
    ([myutil.plot_New], myutil.PanicErr EmptyInput) /\
  myutil.MyCandleChart calm sample_glyph [] [] {| T := 5; Unit := "" |} =
    ([myutil.plot_New], myutil.PanicRuntime (IndexOutOfRange 0 0)) /\
  exists cc,
    NewCandleChart sample_glyph sample_periods = Ok cc /\
    fst (myutil.MyCandleChart calm sample_glyph ["a"; "b"]%string
           sample_periods {| T := 5; Unit := FormatMinute |}) =
    [ myutil.plot_New;
      myutil.Plot_Add (myutil.Chart cc);
      myutil.Plot_set (myutil.Title_Text "Candle Chart");
      myutil.Plot_set (myutil.X_Label_Text "Time");
      myutil.Plot_set (myutil.X_Label_Text "Time [5 min]");
      myutil.Plot_set (myutil.Y_Label_Text "Price [yen]");
      myutil.Plot_set myutil.Y_Tick_Marker_RawTicks;
      myutil.Plot_NominalX ["a"; "b"]%string;
      myutil.Plot_set (myutil.X_Min (of_decimal true 5 (-1)));
      myutil.Plot_set (myutil.X_Max (of_decimal false 22 (-1))) ]
    ++ saved_and_opened.
Proof.
  split; [|split].
  - apply (proj1 (MyCandleChart_outcome calm sample_glyph ["a"; "b"]%string
                    [[of_int 1]; []] {| T := 5; Unit := FormatMinute |}
                    (fun _ _ => eq_refl))).
    cbn. auto.
  - apply (proj1 (proj2 (MyCandleChart_outcome calm sample_glyph []
                           [] {| T := 5; Unit := "" |}
                           (fun _ _ => eq_refl)))).
    reflexivity.
  - destruct (proj2 (proj2 (MyCandleChart_outcome calm sample_glyph
                              ["a"; "b"]%string sample_periods
                              {| T := 5; Unit := FormatMinute |}
                              (fun _ _ => eq_refl))))
      as (cc & Hc & Hr).
    + discriminate.
    + repeat constructor; discriminate.
    + exists cc. split; [exact Hc|]. rewrite Hr. reflexivity.
Defined.

(** X22: the X axis text of [MyCandleChart] is Time, an opening bracket,
    [T] in decimal, a space, the unit of [transFormat2Unit] and a closing
    bracket; for a unit that is none of the six formats the unit is
    empty and the text ends in a space and the bracket. *)
Theorem time_label_unknown_unit (bu : BarUnit) :
  ~ In (Unit bu) formats ->
  myutil.time_label bu = ("Time [" ++ myutil.Itoa (T bu) ++ " ]")%string.
Proof.
  intros H. unfold myutil.time_label, transFormat2Unit.
  repeat match goal with
  | |- context [String.eqb (Unit bu) ?g] =>
      destruct (String.eqb_spec (Unit bu) g) as [E|_];
      [exfalso; apply H; rewrite E; cbn; tauto|]
  end.
  reflexivity.
Qed.

Lemma time_label_unknown_unit_witness :
  myutil.time_label {| T := -3; Unit := "week" |} = "Time [-3 ]"%string.
Proof.
  apply (time_label_unknown_unit {| T := -3; Unit := "week" |}).
  cbn. intros H.
  repeat (destruct H as [H|H]; [discriminate H|]). exact H.
Defined.

(** ** The order of samples and the low and high of a candle *)

Lemma cmp4_spec (a b : Z * Z * Z * Z) :
  CompareSpec (a = b) (lex_lt4 a b) (lex_lt4 b a) (cmp4 a b).
Proof.
  destruct a as [[[a1 a2] a3] a4], b as [[[b1 b2] b3] b4].
  unfold cmp4, lex_lt4.
  destruct (Z.compare_spec a1 b1); [|constructor; lia..].
  destruct (Z.compare_spec a2 b2); [|constructor; lia..].
  destruct (Z.compare_spec a3 b3); [|constructor; lia..].
  destruct (Z.compare_spec a4 b4); constructor; try lia. congruence.
Qed.

Lemma rank_min_inj (x y : float64) : rank_min x = rank_min y -> x = y.
Proof.
  destruct x as [[|]|[|]| |[|] mx ex], y as [[|]|[|]| |[|] my ey];
    cbn; intros H; try discriminate; try reflexivity;
    injection H as H1 H2; f_equal; lia.
Qed.

Lemma rank_max_inj (x y : float64) : rank_max x = rank_max y -> x = y.
Proof.
  destruct x as [[|]|[|]| |[|] mx ex], y as [[|]|[|]| |[|] my ey];
    cbn; intros H; try discriminate; try reflexivity;
    injection H as H1 H2; f_equal; lia.
Qed.

Lemma lt_finite_rank (s : bool) (mx my : positive) (ex ey : Z) :
  let x := S754_finite s mx ex in
  let y := S754_finite s my ey in
  (lex_lt4 (rank_min x) (rank_min y) -> lt x y = true /\ lt y x = false) /\
  (lex_lt4 (rank_max x) (rank_max y) -> lt y x = true /\ lt x y = false).
Proof.
  intros x y.
  assert (K : forall a b : float64,
             IsNaN a = false -> IsNaN b = false ->
             lex_lt (key a) (key b) -> lt a b = true /\ lt b a = false).
  { intros a b Ha Hb L. split; [now apply lt_key|].
    apply lt_false_key. right. right. revert L. unfold lex_lt.
    destruct (key a) as [[a1 a2] a3], (key b) as [[b1 b2] b3]. lia. }
  split; intros L; apply K; try reflexivity; revert L;
    unfold x, y; destruct s; cbn; lia.
Qed.

Lemma Min_first_by (x y : float64) : Min x y = first_by rank_min x y.
Proof.
  unfold first_by.
  destruct x as [[|]|[|]| |[|] mx ex], y as [[|]|[|]| |[|] my ey];
    try reflexivity.
  - destruct (cmp4_spec (rank_min (S754_finite true mx ex))
                        (rank_min (S754_finite true my ey))) as [E|L|L].
    + apply rank_min_inj in E. rewrite E. apply Min_idem.
    + apply (lt_finite_rank true) in L. destruct L as [L1 L2].
      unfold Min. cbn [IsInf IsNaN orb].
      change (eq (S754_finite true mx ex) zero) with false.
      cbn [andb]. now rewrite L1.
    + apply (lt_finite_rank true) in L. destruct L as [L1 L2].
      unfold Min. cbn [IsInf IsNaN orb].
      change (eq (S754_finite true mx ex) zero) with false.
      cbn [andb]. now rewrite L2.
  - destruct (cmp4_spec (rank_min (S754_finite false mx ex))
                        (rank_min (S754_finite false my ey))) as [E|L|L].
    + apply rank_min_inj in E. rewrite E. apply Min_idem.
    + apply (lt_finite_rank false) in L. destruct L as [L1 L2].
      unfold Min. cbn [IsInf IsNaN orb].
      change (eq (S754_finite false mx ex) zero) with false.
      cbn [andb]. now rewrite L1.
    + apply (lt_finite_rank false) in L. destruct L as [L1 L2].
      unfold Min. cbn [IsInf IsNaN orb].
      change (eq (S754_finite false mx ex) zero) with false.
      cbn [andb]. now rewrite L2.
Qed.

Lemma Max_first_by (x y : float64) : Max x y = first_by rank_max x y.
Proof.
  unfold first_by.
  destruct x as [[|]|[|]| |[|] mx ex], y as [[|]|[|]| |[|] my ey];
    try reflexivity.
  - destruct (cmp4_spec (rank_max (S754_finite true mx ex))
                        (rank_max (S754_finite true my ey))) as [E|L|L].
    + apply rank_max_inj in E. rewrite E. apply Max_idem.
    + apply (lt_finite_rank true) in L. destruct L as [L1 L2].
      unfold Max. cbn [IsInf IsNaN orb].
      change (eq (S754_finite true mx ex) zero) with false.
      cbn [andb].
      change (gt (S754_finite true mx ex) (S754_finite true my ey))
        with (lt (S754_finite true my ey) (S754_finite true mx ex)).
      now rewrite L1.
    + apply (lt_finite_rank true) in L. destruct L as [L1 L2].
      unfold Max. cbn [IsInf IsNaN orb].
      change (eq (S754_finite true mx ex) zero) with false.
      cbn [andb].
      change (gt (S754_finite true mx ex) (S754_finite true my ey))
        with (lt (S754_finite true my ey) (S754_finite true mx ex)).
      now rewrite L2.
  - destruct (cmp4_spec (rank_max (S754_finite false mx ex))
                        (rank_max (S754_finite false my ey))) as [E|L|L].
    + apply rank_max_inj in E. rewrite E. apply Max_idem.
    + apply (lt_finite_rank false) in L. destruct L as [L1 L2].
      unfold Max. cbn [IsInf IsNaN orb].
      change (eq (S754_finite false mx ex) zero) with false.
      cbn [andb].
      change (gt (S754_finite false mx ex) (S754_finite false my ey))
        with (lt (S754_finite false my ey) (S754_finite false mx ex)).
      now rewrite L1.
    + apply (lt_finite_rank false) in L. destruct L as [L1 L2].
      unfold Max. cbn [IsInf IsNaN orb].
      change (eq (S754_finite false mx ex) zero) with false.
      cbn [andb].
      change (gt (S754_finite false mx ex) (S754_finite false my ey))
        with (lt (S754_finite false my ey) (S754_finite false mx ex)).
      now rewrite L2.
Qed.

Section FirstBy.

Variable r : float64 -> Z * Z * Z * Z.
Hypothesis r_inj : forall x y, r x = r y -> x = y.

Lemma first_by_right_comm (a x y : float64) :
  first_by r (first_by r a x) y = first_by r (first_by r a y) x.
Proof.
  unfold first_by.
  destruct (cmp4_spec (r a) (r x)) as [E1|L1|L1];
    destruct (cmp4_spec (r a) (r y)) as [E2|L2|L2];
    repeat match goal with
    | |- context [cmp4 (r ?u) (r ?v)] =>
        destruct (cmp4_spec (r u) (r v))
    end;
    repeat match goal with
    | H : r ?u = r ?v |- _ => apply r_inj in H
    end;
    subst; try reflexivity; exfalso;
    unfold lex_lt4 in *;
    repeat match goal with
    | H : context [r ?u] |- _ => destruct (r u) as [[[? ?] ?] ?]
    end; lia.
Qed.

Lemma fold_first_by_perm (l l' : list float64) :
  Permutation l l' ->
  forall acc, fold_left (first_by r) l acc = fold_left (first_by r) l' acc.
Proof.
  induction 1 as [|x l l' _ IH|x y l|l l' l'' _ IH1 _ IH2]; intros acc;
    cbn [fold_left].
  - reflexivity.
  - apply IH.
  - now rewrite first_by_right_comm.
  - now rewrite IH1.
Qed.

End FirstBy.

Lemma Min_inf_l (d : float64) : Min (Inf 1) d = d.
Proof. destruct d as [[|]|[|]| |[|] m e]; reflexivity. Qed.

Lemma Max_inf_l (d : float64) : Max (Inf (-1)) d = d.
Proof. destruct d as [[|]|[|]| |[|] m e]; reflexivity. Qed.

Lemma fold_ext {A B : Type} (f g : A -> B -> A) (l : list B) (a : A) :
  (forall a b, f a b = g a b) -> fold_left f l a = fold_left g l a.
Proof.
  intros H. revert a. induction l as [|b l IH]; intros a; cbn;
    [reflexivity|]. now rewrite H, IH.
Qed.

Lemma fold_Min_start (d0 : float64) (l : list float64) :
  fold_left Min (d0 :: l) d0 = fold_left Min (d0 :: l) (Inf 1).
Proof. cbn [fold_left]. now rewrite Min_idem, Min_inf_l. Qed.

Lemma fold_Max_start (d0 : float64) (l : list float64) :
  fold_left Max (d0 :: l) d0 = fold_left Max (d0 :: l) (Inf (-1)).
Proof. cbn [fold_left]. now rewrite Max_idem, Max_inf_l. Qed.

Lemma fold_Min_perm (d0 d0' : float64) (l l' : list float64) :
  Permutation (d0 :: l) (d0' :: l') ->
  fold_left Min (d0 :: l) d0 = fold_left Min (d0' :: l') d0'.
Proof.
  intros P. rewrite !fold_Min_start.
  rewrite !(fold_ext Min (first_by rank_min) _ _ Min_first_by).
  apply fold_first_by_perm; [apply rank_min_inj | exact P].
Qed.

Lemma fold_Max_perm (d0 d0' : float64) (l l' : list float64) :
  Permutation (d0 :: l) (d0' :: l') ->
  fold_left Max (d0 :: l) d0 = fold_left Max (d0' :: l') d0'.
Proof.
  intros P. rewrite !fold_Max_start.
  rewrite !(fold_ext Max (first_by rank_max) _ _ Max_first_by).
  apply fold_first_by_perm; [apply rank_max_inj | exact P].
Qed.

(** X4: the low and the high of a candle do not depend on the order of
    the samples: two periods with the same samples in any order give
    candles with the same low and the same high, NaN and signed zeros
    included. *)
Theorem NewCandle_sample_order (x x' : float64) (data data' : list float64)
    (c c' : Candle) :
  Permutation data data' ->
  NewCandle x data = Ok c -> NewCandle x' data' = Ok c' ->
  low c = low c' /\ high c = high c'.
Proof.
  intros P H H'.
  destruct data as [|d0 l]; [discriminate|].
  destruct data' as [|d0' l']; [discriminate|].
  rewrite NewCandle_cons in H, H'.
  injection H as <-. injection H' as <-. cbn [low high].
  split; [now apply fold_Min_perm | now apply fold_Max_perm].
Qed.

Lemma NewCandle_sample_order_witness :
  low sample_candle0 =
    low {| X := zero; start := of_int 12; end_ := of_int 11;
           low := of_int 9; high := of_int 12; Color := color.Black |} /\
  high sample_candle0 =
    high {| X := zero; start := of_int 12; end_ := of_int 11;
            low := of_int 9; high := of_int 12; Color := color.Black |}.
Proof.
  apply (NewCandle_sample_order (of_int 0) zero
           [of_int 10; of_int 12; of_int 9; of_int 11]
           [of_int 12; of_int 10; of_int 9; of_int 11]).
  - apply perm_swap.
  - reflexivity.
  - reflexivity.
Defined.
